(** * MilesConnect: route sequencing, load allocation and their HTTP boundary

    A shallow embedding of the optimization service (Go) and of the
    trip-sheet routing service of the backend (TypeScript), with the
    properties the specification states about them.

    - [Geo]: the haversine distance and the nearest-neighbour route
      sequencer [SolveTSPNearestNeighbor].
    - [Alloc]: the best-fit-decreasing fleet load allocator.
    - [Api]: the handlers [OptimizeRouteHandler], [OptimizeLoadHandler]
      and [HealthHandler].
    - [Routing]: [optimizeTripSheetRoute] and route validation.

    Conventions.
    - A Go [float64] or JavaScript number that takes part in
      arithmetic is a primitive binary64 float ([PrimFloat.float]);
      operations and comparisons are the IEEE 754 ones, so [NaN]
      compares false with everything.
    - A Go [int] used as a slice index is a [Z].
    - A Go slice is a [list]; an index out of range is a run-time
      panic, the outcome [Panic].
    - Functions that live outside the repository (Go's [math] and
      [encoding/json], JavaScript built-ins) are fields of a class:
      [GoMath], [Api.Deps], [Routing.TspUtils]. *)

From Stdlib Require Import String.
From Stdlib Require Import Floats ZArith QArith Lqa Lia Bool.
From Stdlib Require Import List Permutation.
Import ListNotations.

Close Scope Q_scope.
Set Implicit Arguments.

(** ** Outcomes of a Go function that may panic *)

Inductive outcome (A : Type) : Type :=
| Returned (a : A)     (* the function returned [a] *)
| Panic                (* runtime panic (index out of range) *)
| OutOfFuel.           (* the model's loop bound was too small *)

Arguments Returned {A} a.
Arguments Panic {A}.
Arguments OutOfFuel {A}.

(** [subseq l1 l2]: [l1] is [l2] with some elements left out, the
    others in their original order. *)
Inductive subseq {A : Type} : list A -> list A -> Prop :=
| subseq_nil : subseq [] []
| subseq_skip x l1 l2 : subseq l1 l2 -> subseq l1 (x :: l2)
| subseq_keep x l1 l2 : subseq l1 l2 -> subseq (x :: l1) (x :: l2).

(** ** Go's math package *)

Class GoMath : Type := {
  Sin : float -> float;
  Cos : float -> float;
  Atan2 : float -> float -> float
}.


(** A stand-in for the math library built from the small-angle
    approximations [sin x ~ x], [cos x ~ 1], [atan2 y x ~ y / x].
    It obeys [go_special_cases] and makes every definition below
    computable on concrete inputs. *)
Definition is_finite (x : float) : bool :=
  negb (is_nan x) && negb (is_infinity x).

Definition SmallAngle : GoMath := {|
  Sin := fun x => if is_finite x then x else nan;
  Cos := fun x => if is_finite x then 1%float else nan;
  Atan2 := fun y x => if is_nan y || is_nan x then nan else (y / x)%float
|}.

(** ** The route sequencer (optimization service, single-file version) *)

Module Geo.

(** [type Coordinate struct { Lat, Lon float64; ID string }] *)
Record Coordinate : Type := {
  Lat : float;
  Lon : float;
  ID : string
}.

(** [type OptimizationRequest struct { Start Coordinate; Stops []Coordinate }] *)
Record OptimizationRequest : Type := {
  Start : Coordinate;
  Stops : list Coordinate
}.

(** [math.MaxFloat64] *)
Definition MaxFloat64 : float := 0x1.fffffffffffffp+1023%float.

(** The constant expression [math.Pi / 180.0], evaluated exactly by the
    Go compiler and rounded once to [float64]. *)
Definition deg2rad : float := 0x1.1df46a2529d39p-6%float.

Section WithMath.
Context {M : GoMath}.

(** [func Distance(p1, p2 Coordinate) float64] *)
Definition Distance (p1 p2 : Coordinate) : float :=
  let R := 6371%float in
  let dLat := ((Lat p2 - Lat p1) * deg2rad)%float in
  let dLon := ((Lon p2 - Lon p1) * deg2rad)%float in
  let lat1 := (Lat p1 * deg2rad)%float in
  let lat2 := (Lat p2 * deg2rad)%float in
  let a := (Sin (dLat / 2) * Sin (dLat / 2) +
            Sin (dLon / 2) * Sin (dLon / 2) * Cos lat1 * Cos lat2)%float in
  let c := (2 * Atan2 (PrimFloat.sqrt a) (PrimFloat.sqrt (1 - a)))%float in
  (R * c)%float.

(** The inner [for i, stop := range remaining] loop: [i] is the index
    of the head of [remaining]; the result is the final
    [(nearestIdx, minDist)]. *)
Fixpoint scan (current : Coordinate) (i : Z) (remaining : list Coordinate)
    (nearestIdx : Z) (minDist : float) : Z * float :=
  match remaining with
  | [] => (nearestIdx, minDist)
  | stop :: rest =>
      let dist := Distance current stop in
      if (dist <? minDist)%float
      then scan current (i + 1) rest i dist
      else scan current (i + 1) rest nearestIdx minDist
  end.

(** [s[i]] for a Go slice: [None] is the index-out-of-range panic. *)
Definition index (s : list Coordinate) (i : Z) : option Coordinate :=
  if (i <? 0)%Z then None else nth_error s (Z.to_nat i).

(** [append(s[:i], s[i+1:]...)] for an index [i] in range. *)
Definition remove_at (s : list Coordinate) (i : Z) : list Coordinate :=
  firstn (Z.to_nat i) s ++ skipn (Z.to_nat (i + 1)) s.

(** The variables of the outer loop. *)
Record LoopState : Type := {
  remaining : list Coordinate;
  route : list Coordinate;
  current : Coordinate
}.

(** The index chosen by one iteration of the outer loop. *)
Definition nearest (st : LoopState) : Z :=
  fst (scan (current st) 0 (remaining st) (-1) MaxFloat64).

(** One iteration of the outer loop (its body). *)
Definition iteration (st : LoopState) : outcome LoopState :=
  let nearestIdx := nearest st in
  match index (remaining st) nearestIdx with
  | None => Panic
  | Some nextStop =>
      Returned {| remaining := remove_at (remaining st) nearestIdx;
                  route := route st ++ [nextStop];
                  current := nextStop |}
  end.

(** [for len(remaining) > 0 { ... }], bounded by [fuel] iterations. *)
Fixpoint loop (fuel : nat) (st : LoopState) : outcome (list Coordinate) :=
  match remaining st with
  | [] => Returned (route st)
  | _ :: _ =>
      match fuel with
      | O => OutOfFuel
      | S fuel' =>
          match iteration st with
          | Returned st' => loop fuel' st'
          | Panic => Panic
          | OutOfFuel => OutOfFuel
          end
      end
  end.

(** [func SolveTSPNearestNeighbor(start Coordinate, stops []Coordinate) []Coordinate] *)
Definition SolveTSPNearestNeighbor (start : Coordinate) (stops : list Coordinate)
    : outcome (list Coordinate) :=
  match stops with
  | [] => Returned []
  | _ :: _ =>
      loop (length stops) {| remaining := stops; route := []; current := start |}
  end.

(** The loop states the sequencer goes through on [start] and [stops]:
    the state before the first iteration and every state an iteration
    returns. *)
Inductive reachable (start : Coordinate) (stops : list Coordinate)
    : LoopState -> Prop :=
| reach_init :
    reachable start stops {| remaining := stops; route := []; current := start |}
| reach_step st st' :
    reachable start stops st ->
    iteration st = Returned st' ->
    reachable start stops st'.

(** [st'] is [st] after an iteration that took, from position [k] of
    the pool, a stop [next] at minimum distance from the current
    position among the stops whose distance is a number, strictly
    closer than every such stop before it in the pool. *)
Definition takes_nearest (st st' : LoopState) : Prop :=
  exists k next,
    nth_error (remaining st) k = Some next /\
    route st' = route st ++ [next] /\
    current st' = next /\
    remaining st' = firstn k (remaining st) ++ skipn (S k) (remaining st) /\
    forall j s, nth_error (remaining st) j = Some s ->
      is_nan (Distance (current st) s) = false ->
      (Distance (current st) next <=? Distance (current st) s)%float = true /\
      (j < k ->
       (Distance (current st) next <? Distance (current st) s)%float = true).


(** Every distance the sequencer can compute on this input compares
    below [MaxFloat64]; in particular none is [NaN]. *)
Definition distances_ordinary (start : Coordinate) (stops : list Coordinate) : bool :=
  forallb (fun c => forallb (fun s => (Distance c s <? MaxFloat64)%float) stops)
          (start :: stops).

End WithMath.

(** Sample inputs.  Every literal is an exact binary64 value. *)

(** Two points whose latitudes are the largest power of two of
    binary64, [2^1023] (about 8.99e307), with opposite signs. *)
Definition far_north : Coordinate :=
  {| Lat := 0x1p+1023%float; Lon := 0%float; ID := "N" |}.
Definition far_south : Coordinate :=
  {| Lat := (-0x1p+1023)%float; Lon := 0%float; ID := "S" |}.

(** A depot and three stops around Mumbai. *)
Definition depot : Coordinate :=
  {| Lat := 19.0%float; Lon := 72.875%float; ID := "" |}.
Definition stopA : Coordinate :=
  {| Lat := 19.125%float; Lon := 72.875%float; ID := "A" |}.
Definition stopB : Coordinate :=
  {| Lat := 19.0625%float; Lon := 72.8125%float; ID := "B" |}.
Definition stopC : Coordinate :=
  {| Lat := 19.0625%float; Lon := 72.9375%float; ID := "C" |}.

(** The sequencer's state before and after its first iteration on
    [depot] and [[stopA; stopB; stopC]]. *)
Definition sample_before : LoopState :=
  {| remaining := [stopA; stopB; stopC]; route := []; current := depot |}.
Definition sample_after : LoopState :=
  {| remaining := [stopA; stopC]; route := [stopB]; current := stopB |}.

End Geo.

(** ** The fleet load allocator *)

Module Alloc.

Local Open Scope Q_scope.

(** Modelled from the spec: the records of the [models] package
    ([Shipment], [Vehicle], [LoadRequest]) are not among the sources.
    The handler reads [req.Shipments] and [s.WeightKg]; the other
    fields follow the data model of the specification.  Weights and
    capacities are rationals: every number the JSON decoder accepts is
    a finite binary64 value, hence a rational. *)
Record Shipment : Type := {
  SID : string;
  WeightKg : Q
}.

Record Vehicle : Type := {
  VID : string;
  CapacityKg : Q
}.

Record LoadRequest : Type := {
  Vehicles : list Vehicle;
  Shipments : list Shipment
}.

(** Modelled from the spec: [Allocation], one entry per vehicle in
    input order, each with the ordered ids of its shipments, and the
    ids of the shipments that fit nowhere. *)
Record Allocation : Type := {
  assignments : list (string * list string);
  unassigned : list string
}.

(** Modelled from the spec: the "per-vehicle remaining-capacity
    table" of the allocator, one entry per vehicle with its remaining
    capacity and its load. *)
Record Bin : Type := {
  bin_vehicle : Vehicle;
  bin_remaining : Q;
  bin_load : list Shipment
}.

(** Modelled from the spec: the state of the allocator, the vehicles
    and the shipments that found no vehicle. *)
Record AllocState : Type := {
  bins : list Bin;
  leftover : list Shipment
}.

(** Modelled from the spec: "sort shipments by weight descending (ties
    broken by original input order, stable)". *)
Fixpoint insert_desc (s : Shipment) (sorted : list Shipment) : list Shipment :=
  match sorted with
  | [] => [s]
  | t :: rest =>
      if Qle_bool (WeightKg t) (WeightKg s)
      then s :: t :: rest
      else t :: insert_desc s rest
  end.

(** Modelled from the spec: the shipments in the order the allocator
    takes them. *)
Definition sort_desc (shipments : list Shipment) : list Shipment :=
  fold_right insert_desc [] shipments.

(** Modelled from the spec: "scan all vehicles and select the one with
    the smallest remaining capacity that is still >= the shipment's
    weight; ties among equally-tight vehicles broken by vehicle input
    order".  [i] is the position of the head of [bs]; [best] is the
    position and remaining capacity of the tightest fit so far. *)
Fixpoint best_fit (w : Q) (bs : list Bin) (i : nat) (best : option (nat * Q))
    : option (nat * Q) :=
  match bs with
  | [] => best
  | b :: rest =>
      let best' :=
        if Qle_bool w (bin_remaining b) then
          match best with
          | None => Some (i, bin_remaining b)
          | Some (_, r) =>
              if Qle_bool r (bin_remaining b) then best
              else Some (i, bin_remaining b)
          end
        else best in
      best_fit w rest (S i) best'
  end.

(** Modelled from the spec: the shipment joins the load of the vehicle
    and uses up its weight of the remaining capacity. *)
Definition assign (s : Shipment) (b : Bin) : Bin :=
  {| bin_vehicle := bin_vehicle b;
     bin_remaining := bin_remaining b - WeightKg s;
     bin_load := bin_load b ++ [s] |}.

(** Modelled from the spec: the vehicle at position [i] is replaced. *)
Fixpoint update_at (i : nat) (f : Bin -> Bin) (bs : list Bin) : list Bin :=
  match bs, i with
  | [], _ => []
  | b :: rest, O => f b :: rest
  | b :: rest, S i' => b :: update_at i' f rest
  end.

(** Modelled from the spec: one assignment step.  The shipment goes to
    its best fit, or, "if no vehicle has sufficient remaining capacity,
    the shipment is placed in the unassigned list". *)
Definition place (st : AllocState) (s : Shipment) : AllocState :=
  match best_fit (WeightKg s) (bins st) 0 None with
  | Some (i, _) =>
      {| bins := update_at i (assign s) (bins st); leftover := leftover st |}
  | None =>
      {| bins := bins st; leftover := leftover st ++ [s] |}
  end.

(** Modelled from the spec: before the first step every vehicle is
    empty. *)
Definition init (vehicles : list Vehicle) : AllocState :=
  {| bins := map (fun v => {| bin_vehicle := v;
                              bin_remaining := CapacityKg v;
                              bin_load := [] |}) vehicles;
     leftover := [] |}.


(** Modelled from the spec: the [Allocation] a state stands for. *)
Definition to_allocation (st : AllocState) : Allocation :=
  {| assignments := map (fun b => (VID (bin_vehicle b), map SID (bin_load b))) (bins st);
     unassigned := map SID (leftover st) |}.

(** Modelled from the spec: [OptimizeFleetAllocation] of the [solver]
    package, which is not among the sources (best-fit-decreasing bin
    packing, section 4.4 of the specification). *)
Definition OptimizeFleetAllocation (req : LoadRequest) : Allocation :=
  to_allocation
    (fold_left place (sort_desc (Shipments req)) (init (Vehicles req))).






(** Every shipment the state holds, vehicle by vehicle, then the
    unassigned ones. *)
Definition placed (st : AllocState) : list Shipment :=
  concat (map bin_load (bins st)) ++ leftover st.

(** The scenario of the specification: one vehicle of 100 kg, two
    shipments of 60 kg and 50 kg. *)
Definition scenario : LoadRequest :=
  {| Vehicles := [ {| VID := "V1"; CapacityKg := 100 |} ];
     Shipments := [ {| SID := "S1"; WeightKg := 60 |};
                    {| SID := "S2"; WeightKg := 50 |} ] |}.

(** Two vehicles, four shipments. *)
Definition two_trucks : LoadRequest :=
  {| Vehicles := [ {| VID := "V1"; CapacityKg := 100 |};
                   {| VID := "V2"; CapacityKg := 80 |} ];
     Shipments := [ {| SID := "S1"; WeightKg := 30 |};
                    {| SID := "S2"; WeightKg := 70 |};
                    {| SID := "S3"; WeightKg := 45.5 |};
                    {| SID := "S4"; WeightKg := 70 |} ] |}.

End Alloc.

(** ** The HTTP handlers of the optimization service *)

Module Api.
Import Geo Alloc.

Local Open Scope string_scope.

(** *** net/http *)

Definition MethodPost : string := "POST".
Definition StatusOK : Z := 200.
Definition StatusBadRequest : Z := 400.
Definition StatusMethodNotAllowed : Z := 405.

(** What a handler reads of [*http.Request]. *)
Record Request : Type := {
  Method : string;
  Body : string
}.

(** The state behind an [http.ResponseWriter]: the header map, the
    status code once written, and the body written so far. *)
Record ResponseWriter : Type := {
  header : list (string * string);
  status : option Z;
  written : string
}.

(** The collaborators of the handlers that are not among the sources:
    the JSON codec of [encoding/json] at the types of the [models]
    package, and the two functions of the [solver] package, which may
    panic. *)
Class Deps : Type := {
  RouteResponse : Type;
  LoadResponse : Type;
  decodeRoute : string -> option OptimizationRequest;
  decodeLoad : string -> option LoadRequest;
  solver_SolveTSPNearestNeighbor : OptimizationRequest -> outcome RouteResponse;
  solver_OptimizeFleetAllocation : LoadRequest -> outcome LoadResponse;
  encodeRoute : RouteResponse -> option string;
  encodeLoad : LoadResponse -> option string
}.

(** A call into the [solver] package. *)
Inductive Call : Type :=
| CallSolveTSP (req : OptimizationRequest)
| CallOptimizeFleet (req : LoadRequest).

(** What one request can change: the response writer and the log of
    solver calls. *)
Record World : Type := {
  rw : ResponseWriter;
  calls : list Call
}.

Definition fresh : World :=
  {| rw := {| header := []; status := None; written := "" |}; calls := [] |}.

(** A handler computation: it returns a value and goes on
    ([Returned (Some a)]), executes [return] ([Returned None]), or
    panics. *)
Definition Handler (A : Type) : Type := World -> outcome (option A) * World.

Definition pure {A} (a : A) : Handler A := fun w => (Returned (Some a), w).

Definition bind {A B} (m : Handler A) (k : A -> Handler B) : Handler B :=
  fun w =>
    match m w with
    | (Returned (Some a), w') => k a w'
    | (Returned None, w') => (Returned None, w')
    | (Panic, w') => (Panic, w')
    | (OutOfFuel, w') => (OutOfFuel, w')
    end.

(** The [return] statement of a handler. *)
Definition return_ {A} : Handler A := fun w => (Returned None, w).

Notation "x <- c1 ;; c2" := (bind c1 (fun x => c2))
  (at level 61, c1 at next level, right associativity).
Notation "c1 ;; c2" := (bind c1 (fun _ => c2))
  (at level 61, right associativity).

Definition when (b : bool) (body : Handler unit) : Handler unit :=
  if b then body else pure tt.

Definition on_writer (f : ResponseWriter -> ResponseWriter) : Handler unit :=
  fun w => (Returned (Some tt), {| rw := f (rw w); calls := calls w |}).

(** [w.Header().Set(k, v)] *)
Definition Header_Set (k v : string) : Handler unit :=
  on_writer (fun r =>
    {| header := (k, v) :: filter (fun kv => negb (fst kv =? k)) (header r);
       status := status r; written := written r |}).

(** [w.WriteHeader(code)]: only the first status counts. *)
Definition WriteHeader (code : Z) : Handler unit :=
  on_writer (fun r =>
    {| header := header r;
       status := match status r with Some c => Some c | None => Some code end;
       written := written r |}).

(** [w.Write(data)]: writes [StatusOK] first when no status was written. *)
Definition Write (data : string) : Handler unit :=
  WriteHeader StatusOK ;;
  on_writer (fun r =>
    {| header := header r; status := status r; written := written r ++ data |}).

Definition newline : string := String (Ascii.ascii_of_nat 10) "".

(** [http.Error(w, msg, code)] *)
Definition http_Error (msg : string) (code : Z) : Handler unit :=
  Header_Set "Content-Type" "text/plain; charset=utf-8" ;;
  Header_Set "X-Content-Type-Options" "nosniff" ;;
  WriteHeader code ;;
  Write (msg ++ newline).

(** [json.NewEncoder(w).Encode(resp)]; the handlers ignore its error. *)
Definition json_Encode {A} (encode : A -> option string) (resp : A) : Handler unit :=
  match encode resp with
  | Some text => Write (text ++ newline)
  | None => pure tt
  end.

(** The status the client receives once the handler has returned:
    net/http sends 200 when the handler wrote none. *)
Definition status_sent (w : World) : Z :=
  match status (rw w) with Some c => c | None => StatusOK end.

(** What the client gets from a run of a handler: the status, or
    nothing when the handler panicked (net/http drops the connection). *)
Definition reply (res : outcome (option unit) * World) : option Z :=
  match fst res with
  | Returned _ => Some (status_sent (snd res))
  | Panic | OutOfFuel => None
  end.

Section Handlers.
Context {D : Deps}.

(** A call of a solver function: logged, and a panic of the solver is a
    panic of the handler. *)
Definition call {Req Resp} (tag : Req -> Call) (f : Req -> outcome Resp) (req : Req)
    : Handler Resp :=
  fun w =>
    let w' := {| rw := rw w; calls := calls w ++ [tag req] |} in
    match f req with
    | Returned resp => (Returned (Some resp), w')
    | Panic => (Panic, w')
    | OutOfFuel => (OutOfFuel, w')
    end.

(** [func OptimizeRouteHandler(w http.ResponseWriter, r *http.Request)] *)
Definition OptimizeRouteHandler (r : Request) : Handler unit :=
  when (negb (Method r =? MethodPost))
    (http_Error "Method not allowed" StatusMethodNotAllowed ;; return_) ;;
  req <- match decodeRoute (Body r) with
         | Some req => pure req
         | None => http_Error "Invalid request body" StatusBadRequest ;; return_
         end ;;
  resp <- call CallSolveTSP solver_SolveTSPNearestNeighbor req ;;
  Header_Set "Content-Type" "application/json" ;;
  json_Encode encodeRoute resp.

(** [for _, s := range req.Shipments { if s.WeightKg <= 0 { ...; return } }] *)
Fixpoint check_weights (shipments : list Shipment) : Handler unit :=
  match shipments with
  | [] => pure tt
  | s :: rest =>
      when (Qle_bool (WeightKg s) 0)
        (http_Error "Shipment weight must be positive" StatusBadRequest ;; return_) ;;
      check_weights rest
  end.

(** [func OptimizeLoadHandler(w http.ResponseWriter, r *http.Request)] *)
Definition OptimizeLoadHandler (r : Request) : Handler unit :=
  when (negb (Method r =? MethodPost))
    (http_Error "Method not allowed" StatusMethodNotAllowed ;; return_) ;;
  req <- match decodeLoad (Body r) with
         | Some req => pure req
         | None => http_Error "Invalid request body" StatusBadRequest ;; return_
         end ;;
  check_weights (Shipments req) ;;
  resp <- call CallOptimizeFleet solver_OptimizeFleetAllocation req ;;
  Header_Set "Content-Type" "application/json" ;;
  json_Encode encodeLoad resp.

(** [func HealthHandler(w http.ResponseWriter, r *http.Request)] *)
Definition HealthHandler (r : Request) : Handler unit :=
  WriteHeader StatusOK ;;
  Write "OK".

End Handlers.

(** A sample deployment: the sequencer above (with the stand-in math
    library), the allocator above, and a codec that knows the body
    ["route"], the body ["load"] and the body ["no-capacity"]. *)
Definition sample_route : OptimizationRequest :=
  {| Start := depot; Stops := [stopA; stopB; stopC] |}.

Definition no_capacity : LoadRequest :=
  {| Vehicles := [ {| VID := "V1"; CapacityKg := 0 |} ];
     Shipments := [ {| SID := "S1"; WeightKg := 10 |} ] |}.

Definition SampleDeps : Deps := {|
  RouteResponse := list Coordinate;
  LoadResponse := Allocation;
  decodeRoute := fun body => if body =? "route" then Some sample_route else None;
  decodeLoad := fun body =>
    if body =? "load" then Some two_trucks
    else if body =? "no-capacity" then Some no_capacity
    else None;
  solver_SolveTSPNearestNeighbor := fun req =>
    SolveTSPNearestNeighbor (M := SmallAngle) (Start req) (Stops req);
  solver_OptimizeFleetAllocation := fun req => Returned (OptimizeFleetAllocation req);
  encodeRoute := fun _ => Some "[route]";
  encodeLoad := fun _ => Some "{allocation}"
|}.

(** A deployment whose route decoder yields [n] stops for every body. *)
Definition many_stops (n : nat) : OptimizationRequest :=
  {| Start := depot; Stops := repeat stopA n |}.

(** Sample requests. *)
Definition post (body : string) : Request := {| Method := "POST"; Body := body |}.
Definition delete_request : Request := {| Method := "DELETE"; Body := "" |}.

Definition ManyStops (n : nat) : Deps := {|
  RouteResponse := list Coordinate;
  LoadResponse := Allocation;
  decodeRoute := fun _ => Some (many_stops n);
  decodeLoad := fun _ => None;
  solver_SolveTSPNearestNeighbor := fun req => Returned (Stops req);
  solver_OptimizeFleetAllocation := fun req => Returned (OptimizeFleetAllocation req);
  encodeRoute := fun _ => Some "[route]";
  encodeLoad := fun _ => Some "{allocation}"
|}.

End Api.

(** ** The routing service of the backend (routing.service.ts) *)

Module Routing.

Local Open Scope string_scope.

(** [type: "pickup" | "drop"] *)
Inductive WaypointType : Type := pickup | drop.

(** [interface Waypoint] *)
Record Waypoint : Type := {
  id : string;
  type : WaypointType;
  shipmentId : string;
  location : string;
  latitude : option float;
  longitude : option float
}.

(** A pair [{ latitude, longitude }]. *)
Record LatLng : Type := {
  lat : float;
  lng : float
}.

(** An element of the array [optimizeRouteSequence] returns: the
    waypoint with its place in the route.  [Date] is the type of
    [estimatedArrival]. *)
Record RoutedWaypoint (Date : Type) : Type := {
  waypoint : Waypoint;
  order : Z;
  distanceFromPrevious : float;
  estimatedArrival : option Date
}.

Arguments waypoint {Date} _.
Arguments order {Date} _.
Arguments distanceFromPrevious {Date} _.
Arguments estimatedArrival {Date} _.

(** [metrics] of [interface OptimizedRoute] *)
Record Metrics : Type := {
  totalDistance : float;
  totalTime : float;
  pickupCount : Z;
  dropCount : Z
}.

(** An element of [waypoints] of [interface OptimizedRoute] *)
Record FormattedWaypoint : Type := {
  f_order : Z;
  f_shipmentId : string;
  f_type : WaypointType;
  f_location : string;
  f_distanceFromPrevious : float;
  eta : string
}.

(** [interface OptimizedRoute] *)
Record OptimizedRoute : Type := {
  waypoints : list FormattedWaypoint;
  metrics : Metrics;
  isValid : bool;
  errors : list string
}.

(** The result of [validateRouteSequence]. *)
Record Validation : Type := {
  v_isValid : bool;
  v_errors : list string
}.

(** The rows the two prisma queries select. *)
Record ShipmentRow : Type := {
  row_id : string;
  referenceNumber : string;
  originAddress : string;
  destinationAddress : string
}.

Record VehicleRow : Type := {
  vehicle_id : string;
  registrationNumber : string
}.

Record Db : Type := {
  shipment_table : list ShipmentRow;
  vehicle_table : list VehicleRow
}.

(** How a promise settles. *)
Inductive settled (A : Type) : Type :=
| Resolved (a : A)
| Rejected (error : string).

Arguments Resolved {A} a.
Arguments Rejected {A} error.

(** What the service imports and the sources do not contain: the
    functions of [utils/tsp] other than the validator, [getCoordinates]
    of [utils/distanceCalculator], and the JavaScript built-ins
    [Math.round] and [Date]. *)
Class TspUtils : Type := {
  Date : Type;
  hhmm : Date -> string;    (* [toISOString().split("T")[1].slice(0, 5)] *)
  Math_round : float -> float;
  getCoordinates : string -> option LatLng;
  optimizeRouteSequence : list Waypoint -> LatLng -> list (RoutedWaypoint Date);
  calculateRouteMetrics : list (RoutedWaypoint Date) -> Metrics
}.

Section Validator.
Context {Date : Type}.

Definition is_drop (w : RoutedWaypoint Date) : bool :=
  match type (waypoint w) with drop => true | pickup => false end.

Definition is_pickup (w : RoutedWaypoint Date) : bool :=
  match type (waypoint w) with pickup => true | drop => false end.

(** Modelled from the spec: the text of an order violation. *)
Definition drop_before_pickup (shipment : string) : string :=
  "Drop before pickup for shipment " ++ shipment.

(** Modelled from the spec: "no duplicate waypoint identifiers"; one
    error for every identifier that occurs again further in the route. *)
Fixpoint duplicate_errors (route : list (RoutedWaypoint Date)) : list string :=
  match route with
  | [] => []
  | w :: rest =>
      let here :=
        if existsb (fun w' => id (waypoint w') =? id (waypoint w)) rest
        then ["Duplicate waypoint " ++ id (waypoint w)] else [] in
      (here ++ duplicate_errors rest)%list
  end.

(** Modelled from the spec: "every drop waypoint for a given shipment
    must have order strictly greater than the order of its
    corresponding pickup"; one error for every drop and every pickup of
    the same shipment that break this. *)
Definition order_errors (route : list (RoutedWaypoint Date)) : list string :=
  flat_map (fun d =>
    if is_drop d then
      flat_map (fun p =>
        if is_pickup p
           && (shipmentId (waypoint p) =? shipmentId (waypoint d))
           && negb (order p <? order d)%Z
        then [drop_before_pickup (shipmentId (waypoint d))]
        else []) route
    else []) route.

(** The shipments of a route, each once. *)
Definition shipments_of (route : list (RoutedWaypoint Date)) : list string :=
  nodup string_dec (map (fun w => shipmentId (waypoint w)) route).

(** Modelled from the spec: "waypoint count must equal 2 x shipment
    count". *)
Definition completeness_errors (route : list (RoutedWaypoint Date)) : list string :=
  if (length route =? 2 * length (shipments_of route))%nat then []
  else ["Waypoint count is not twice the shipment count"].

(** Modelled from the spec: [validateRouteSequence] of [utils/tsp],
    which is not among the sources (section 4.3: no duplicate waypoint
    identifiers; every drop strictly after its pickup; waypoint count
    equal to twice the shipment count; violations are listed in
    [errors] and [isValid] is false when there is one). *)
Definition validateRouteSequence (route : list (RoutedWaypoint Date)) : Validation :=
  let errs :=
    (duplicate_errors route ++ order_errors route ++ completeness_errors route)%list in
  {| v_isValid := match errs with [] => true | _ :: _ => false end;
     v_errors := errs |}.

End Validator.

Section Service.
Context {U : TspUtils}.

(** [prisma.shipment.findMany({ where: { id: { in: shipmentIds } } })] *)
Definition findMany (db : Db) (shipmentIds : list string) : list ShipmentRow :=
  filter (fun row => existsb (String.eqb (row_id row)) shipmentIds) (shipment_table db).

(** [prisma.vehicle.findUnique({ where: { id: vehicleId } })] *)
Definition findUnique (db : Db) (vehicleId : string) : option VehicleRow :=
  find (fun row => vehicle_id row =? vehicleId) (vehicle_table db).

(** The body of [for (const shipment of shipments)]: the pickup, then
    the drop. *)
Definition waypoints_of (shipment : ShipmentRow) : list Waypoint :=
  let pickupCoords := getCoordinates (originAddress shipment) in
  let dropCoords := getCoordinates (destinationAddress shipment) in
  [ {| id := "pickup_" ++ row_id shipment;
       type := pickup;
       shipmentId := row_id shipment;
       location := originAddress shipment;
       latitude := option_map lat pickupCoords;
       longitude := option_map lng pickupCoords |};
    {| id := "drop_" ++ row_id shipment;
       type := drop;
       shipmentId := row_id shipment;
       location := destinationAddress shipment;
       latitude := option_map lat dropCoords;
       longitude := option_map lng dropCoords |} ].

Definition build_waypoints (shipments : list ShipmentRow) : list Waypoint :=
  flat_map waypoints_of shipments.

(** JavaScript truthiness of a number. *)
Definition truthy (x : float) : bool :=
  negb (x =? 0)%float && negb (is_nan x).

(** Default: Mumbai, [{ latitude: 19.076, longitude: 72.8777 }]. *)
Definition defaultLocation : LatLng :=
  {| lat := 0x1.31374bc6a7efap+4%float; lng := 0x1.2382c3c9eeccp+6%float |}.

(** [waypoints[0]?.latitude ? { ... } : { ... }]; the assertion
    [longitude!] is not checked at run time, an undefined longitude
    becomes [NaN] in arithmetic. *)
Definition startLocation (waypoints : list Waypoint) : LatLng :=
  match waypoints with
  | first :: _ =>
      match latitude first with
      | Some la =>
          if truthy la
          then {| lat := la;
                  lng := match longitude first with Some lo => lo | None => nan end |}
          else defaultLocation
      | None => defaultLocation
      end
  | [] => defaultLocation
  end.

(** The callback of [optimized.map]. *)
Definition format (wp : RoutedWaypoint Date) : FormattedWaypoint :=
  {| f_order := order wp;
     f_shipmentId := shipmentId (waypoint wp);
     f_type := type (waypoint wp);
     f_location := location (waypoint wp);
     f_distanceFromPrevious :=
       (Math_round (distanceFromPrevious wp * 100) / 100)%float;
     eta := match estimatedArrival wp with
            | Some d => hhmm d
            | None => "N/A"
            end |}.

(** The route [optimizeTripSheetRoute] works on: the optimized sequence
    of the waypoints of the shipments found. *)
Definition optimized (db : Db) (shipmentIds : list string) : list (RoutedWaypoint Date) :=
  let waypoints := build_waypoints (findMany db shipmentIds) in
  optimizeRouteSequence waypoints (startLocation waypoints).

(** [export async function optimizeTripSheetRoute(vehicleId, shipmentIds)]:
    the lines written with [console.error] (without the stack trace)
    and the way the promise settles. *)
Definition optimizeTripSheetRoute (db : Db) (vehicleId : string)
    (shipmentIds : list string) : list string * settled OptimizedRoute :=
  match findUnique db vehicleId with
  | None =>
      (["Error optimizing route: Vehicle not found"], Rejected "Vehicle not found")
  | Some _ =>
      let optimized := optimized db shipmentIds in
      let metrics := calculateRouteMetrics optimized in
      let validation := validateRouteSequence optimized in
      let formattedWaypoints := map format optimized in
      ([], Resolved {| waypoints := formattedWaypoints;
                       metrics := metrics;
                       isValid := v_isValid validation;
                       errors := v_errors validation |})
  end.

End Service.

(** Numbers the waypoints of a route from 0. *)
Fixpoint number_from (n : Z) (wps : list Waypoint) : list (RoutedWaypoint unit) :=
  match wps with
  | [] => []
  | w :: rest =>
      {| waypoint := w; order := n; distanceFromPrevious := 0%float;
         estimatedArrival := None |} :: number_from (n + 1) rest
  end.

Definition no_metrics : Metrics :=
  {| totalDistance := 0%float; totalTime := 0%float; pickupCount := 0; dropCount := 0 |}.

(** A sequencer that visits the waypoints in the order given, and one
    that visits them backwards, so that every drop comes before its
    pickup. *)
Definition InOrder : TspUtils := {|
  Date := unit;
  hhmm := fun _ => "00:00";
  Math_round := fun x => x;
  getCoordinates := fun _ => None;
  optimizeRouteSequence := fun wps _ => number_from 0 wps;
  calculateRouteMetrics := fun _ => no_metrics
|}.


Definition sample_db : Db :=
  {| shipment_table :=
       [ {| row_id := "s1"; referenceNumber := "SHP-1";
            originAddress := "Mumbai"; destinationAddress := "Pune" |} ];
     vehicle_table :=
       [ {| vehicle_id := "v1"; registrationNumber := "MH-01-AB-1234" |} ] |}.




End Routing.

(** ** The tour the sequencer returns *)

Module Tour.
Import Geo.

Section WithMath.
Context {M : GoMath}.

(** [x] is at minimum distance from [from] among the stops of [pool]
    whose distance from [from] is a number. *)
Definition nearest_of (from x : Coordinate) (pool : list Coordinate) : Prop :=
  forall y, In y pool ->
    is_nan (Distance from y) = false ->
    (Distance from x <=? Distance from y)%float = true.

(** A greedy chain from [from]: each stop is in reach of the one before
    it and at minimum distance from it among the stops still to come. *)
Fixpoint greedy (from : Coordinate) (tour : list Coordinate) : Prop :=
  match tour with
  | [] => True
  | x :: rest =>
      (Distance from x <? MaxFloat64)%float = true /\
      nearest_of from x tour /\
      greedy x rest
  end.

(** No stop of the pool is at a distance below [MaxFloat64] from the
    current position. *)
Definition stranded (st : LoopState) : Prop :=
  Forall (fun s => (Distance (current st) s <? MaxFloat64)%float = false)
         (remaining st).

End WithMath.

End Tour.

(** ** The handler of the single-file service *)

Module Service.
Import Geo Api.

Local Open Scope string_scope.

(** The JSON codec of [encoding/json] at the types of the handler:
    [Decode] into an [OptimizationRequest], [Encode] of a
    [[]Coordinate]. *)
Class Codec : Type := {
  decode : string -> option OptimizationRequest;
  encode : list Coordinate -> option string
}.

Section Handler.
Context {M : GoMath} {C : Codec}.

(** [func optimizeHandler(w http.ResponseWriter, r *http.Request)] *)
Definition optimizeHandler (r : Request) : Handler unit :=
  when (negb (Method r =? MethodPost))
    (http_Error "Method not allowed" StatusMethodNotAllowed ;; return_) ;;
  req <- match decode (Body r) with
         | Some req => pure req
         | None => http_Error "Invalid request body" StatusBadRequest ;; return_
         end ;;
  optimizedRoute <-
    call CallSolveTSP
      (fun req => SolveTSPNearestNeighbor (Start req) (Stops req)) req ;;
  Header_Set "Content-Type" "application/json" ;;
  json_Encode encode optimizedRoute.

End Handler.

(** The response writer after [http.Error(w, msg, code)] on a fresh
    writer. *)
Definition error_reply (msg : string) (code : Z) : ResponseWriter :=
  {| header := [("X-Content-Type-Options", "nosniff");
                ("Content-Type", "text/plain; charset=utf-8")];
     status := Some code;
     written := msg ++ newline |}.

(** The response writer after the JSON content type was set and the
    encoder ran on a fresh writer: [text] is the encoding, [None] an
    encoding error, after which nothing is written. *)
Definition json_reply (text : option string) : ResponseWriter :=
  {| header := [("Content-Type", "application/json")];
     status := match text with Some _ => Some StatusOK | None => None end;
     written := match text with Some t => t ++ newline | None => "" end |}.

(** A codec for samples: every body is the request [sample_route]. *)
Definition SampleCodec : Codec := {|
  decode := fun body => if body =? "" then None else Some sample_route;
  encode := fun _ => Some "[route]"
|}.

End Service.

(** ** More sample requests for the handlers *)

Module Samples.
Import Geo Alloc Api.

Local Open Scope string_scope.

(** A load whose three shipment weights are all non-positive. *)
Definition all_bad : LoadRequest :=
  {| Vehicles := [ {| VID := "V1"; CapacityKg := 100 |} ];
     Shipments := [ {| SID := "S1"; WeightKg := 0 |};
                    {| SID := "S2"; WeightKg := -5 |};
                    {| SID := "S3"; WeightKg := 0 |} ] |}.

(** The sample deployment, with a decoder that also knows the body
    ["all-bad"]. *)
Definition MoreDeps : Deps := {|
  RouteResponse := list Coordinate;
  LoadResponse := Allocation;
  decodeRoute := fun body => if body =? "route" then Some sample_route else None;
  decodeLoad := fun body =>
    if body =? "load" then Some two_trucks
    else if body =? "all-bad" then Some all_bad
    else None;
  solver_SolveTSPNearestNeighbor := fun req =>
    SolveTSPNearestNeighbor (M := SmallAngle) (Start req) (Stops req);
  solver_OptimizeFleetAllocation := fun req => Returned (OptimizeFleetAllocation req);
  encodeRoute := fun _ => Some "[route]";
  encodeLoad := fun _ => Some "{allocation}"
|}.

End Samples.

(** ** Route suggestions for a trip sheet (routing.service.ts) *)

Module Trips.
Import Routing.

Local Open Scope string_scope.



Section Service.
Context {U : TspUtils}.



End Service.


End Trips.

(** ** The shipment actions of the web application *)

Module Actions.

Local Open Scope string_scope.

(** [routeData], built from the first route of the directions reply. *)
Record RouteData : Type := {
  coordinates : list (float * float);
  duration : float;
  distance : float;
  congestion : list string
}.

(** The columns of the three tables that the actions read or write. *)
Record ShipmentRow : Type := {
  sh_id : string;
  shipment_number : string;
  start_location : string;
  destination : string;
  start_lat : option float;
  start_lng : option float;
  dest_lat : option float;
  dest_lng : option float;
  driver_id : option string;
  vehicle_id : option string;
  revenue : float;
  sh_status : string;
  delivered_at : option string
}.

Record DriverRow : Type := {
  dr_id : string;
  dr_status : string
}.

Record VehicleRow : Type := {
  ve_id : string;
  ve_status : string;
  ve_latitude : option float;
  ve_longitude : option float;
  current_route : option RouteData;
  route_index : Z;
  ve_eta : option string
}.

Record Db : Type := {
  shipments : list ShipmentRow;
  drivers : list DriverRow;
  vehicles : list VehicleRow
}.

(** What the actions take from outside: [parseFloat], the shipment
    number drawn by [generateShipmentNumber], the directions request
    (nothing when it fails or finds no route), the identifier the
    database gives a new row, the errors the database may answer to
    the insert, the update and the delete of a shipment, and the clock:
    [nowISO] is [new Date().toISOString()] and [isoAfter ms] is
    [new Date(Date.now() + ms).toISOString()], which throws a
    [RangeError] when the date is out of range. *)
Class Backend : Type := {
  parseFloat : string -> float;
  generateShipmentNumber : string;
  fetchRoute : float -> float -> float -> float -> option RouteData;
  insertedId : string;
  insertError : Db -> ShipmentRow -> option string;
  updateError : Db -> string -> option string;
  deleteError : Db -> string -> option string;
  nowISO : string;
  isoAfter : float -> option string
}.

(** [FormData]: the entries in order; [get] returns the first value of
    a name, [null] when there is none. *)
Definition FormData : Type := list (string * string).

Definition get (form : FormData) (name : string) : option string :=
  option_map snd (find (fun entry => fst entry =? name) form).

(** JavaScript truthiness of a string that may be [null], and of a
    number. *)
Definition truthy_string (s : option string) : bool :=
  match s with
  | Some text => negb (text =? "")
  | None => false
  end.

Definition truthy_number (x : float) : bool :=
  negb (x =? 0)%float && negb (is_nan x).

(** How an action ends: it returns [{ error }] or
    [{ success: true, ... }], or it throws. *)
Inductive ActionResult : Type :=
| Failure (error : string)
| Success (shipmentNumber : option string)
| Threw (message : string).

(** The paths an action revalidates on success. *)
Definition all_paths : list string :=
  ["/dashboard"; "/shipments"; "/drivers"; "/vehicles"].

(** [supabase.from('drivers').update({ status }).eq('id', id)] *)
Definition set_driver_status (id status : string) (rows : list DriverRow)
    : list DriverRow :=
  map (fun d => if dr_id d =? id
                then {| dr_id := dr_id d; dr_status := status |}
                else d) rows.

(** [supabase.from('vehicles').update(f).eq('id', id)] *)
Definition update_vehicle (id : string) (f : VehicleRow -> VehicleRow)
    (rows : list VehicleRow) : list VehicleRow :=
  map (fun v => if ve_id v =? id then f v else v) rows.

(** [supabase.from('shipments').update(f).eq('id', id)] *)
Definition update_shipment (id : string) (f : ShipmentRow -> ShipmentRow)
    (rows : list ShipmentRow) : list ShipmentRow :=
  map (fun s => if sh_id s =? id then f s else s) rows.

(** [.select(...).eq('id', id).single()]: the row, or an error when
    there is not exactly one. *)
Definition single (id : string) (rows : list ShipmentRow) : option ShipmentRow :=
  match filter (fun s => sh_id s =? id) rows with
  | [row] => Some row
  | _ => None
  end.

Section WithBackend.
Context {B : Backend}.

(** [parseFloat(formData.get(name) as string) || null] *)
Definition number_or_null (form : FormData) (name : string) : option float :=
  let v := match get form name with
           | Some text => parseFloat text
           | None => nan
           end in
  if truthy_number v then Some v else None.

(** [formData.get(name) as string], read as text once it is known not
    to be [null]. *)
Definition text (s : option string) : string :=
  match s with Some t => t | None => "" end.

(** [export async function createShipment(formData)] *)
Definition createShipment (form : FormData) (db : Db)
    : ActionResult * Db * list string :=
  let startLocation := get form "start_location" in
  let destination_ := get form "destination" in
  let startLat := number_or_null form "start_location_lat" in
  let startLng := number_or_null form "start_location_lng" in
  let destLat := number_or_null form "destination_lat" in
  let destLng := number_or_null form "destination_lng" in
  let driverId := get form "driver_id" in
  let vehicleId := get form "vehicle_id" in
  let revenue_ :=
    match number_or_null form "revenue" with Some v => v | None => 0%float end in
  if negb (truthy_string startLocation) || negb (truthy_string destination_)
     || negb (truthy_string driverId) || negb (truthy_string vehicleId)
  then (Failure "All fields are required", db, [])
  else
    match startLat, startLng, destLat, destLng with
    | Some startLat, Some startLng, Some destLat, Some destLng =>
        let shipmentNumber := generateShipmentNumber in
        let routeData := fetchRoute startLng startLat destLng destLat in
        let row :=
          {| sh_id := insertedId;
             shipment_number := shipmentNumber;
             start_location := text startLocation;
             destination := text destination_;
             start_lat := Some startLat;
             start_lng := Some startLng;
             dest_lat := Some destLat;
             dest_lng := Some destLng;
             driver_id := driverId;
             vehicle_id := vehicleId;
             revenue := revenue_;
             sh_status := "in_transit";
             delivered_at := None |} in
        match insertError db row with
        | Some message => (Failure message, db, [])
        | None =>
            let shipments' := (shipments db ++ [row])%list in
            let drivers' :=
              set_driver_status (text driverId) "working" (drivers db) in
            let eta :=
              match routeData with
              | Some route => option_map Some (isoAfter (duration route * 1000))
              | None => Some None
              end in
            match eta with
            | None =>
                (Threw "Invalid time value",
                 {| shipments := shipments';
                    drivers := drivers';
                    vehicles := vehicles db |},
                 [])
            | Some eta =>
                let vehicleUpdate (v : VehicleRow) :=
                  {| ve_id := ve_id v;
                     ve_status := "in_use";
                     ve_latitude := Some startLat;
                     ve_longitude := Some startLng;
                     current_route := routeData;
                     route_index := 0;
                     ve_eta := eta |} in
                (Success (Some shipmentNumber),
                 {| shipments := shipments';
                    drivers := drivers';
                    vehicles :=
                      update_vehicle (text vehicleId) vehicleUpdate (vehicles db) |},
                 all_paths)
            end
        end
    | _, _, _, _ =>
        (Failure "Please select valid locations from the dropdown", db, [])
    end.

(** The update of a vehicle whose shipment was delivered or cancelled:
    [{ status: 'idle', current_route: null, route_index: 0, eta: null }]. *)
Definition cleared (v : VehicleRow) : VehicleRow :=
  {| ve_id := ve_id v;
     ve_status := "idle";
     ve_latitude := ve_latitude v;
     ve_longitude := ve_longitude v;
     current_route := None;
     route_index := 0;
     ve_eta := None |}.

(** The update of a vehicle whose shipment was deleted:
    [{ status: 'idle' }]. *)
Definition idled (v : VehicleRow) : VehicleRow :=
  {| ve_id := ve_id v;
     ve_status := "idle";
     ve_latitude := ve_latitude v;
     ve_longitude := ve_longitude v;
     current_route := current_route v;
     route_index := route_index v;
     ve_eta := ve_eta v |}.

(** The row [createShipment] inserts. *)
Definition new_row (form : FormData) (a b c d : float) : ShipmentRow :=
  {| sh_id := insertedId;
     shipment_number := generateShipmentNumber;
     start_location := text (get form "start_location");
     destination := text (get form "destination");
     start_lat := Some a;
     start_lng := Some b;
     dest_lat := Some c;
     dest_lng := Some d;
     driver_id := get form "driver_id";
     vehicle_id := get form "vehicle_id";
     revenue := match number_or_null form "revenue" with
                | Some v => v
                | None => 0%float
                end;
     sh_status := "in_transit";
     delivered_at := None |}.

(** [export async function updateShipmentStatus(shipmentId, newStatus)] *)
Definition updateShipmentStatus (shipmentId newStatus : string) (db : Db)
    : ActionResult * Db * list string :=
  match single shipmentId (shipments db) with
  | None => (Failure "Shipment not found", db, [])
  | Some shipment =>
      let updateData (s : ShipmentRow) :=
        {| sh_id := sh_id s;
           shipment_number := shipment_number s;
           start_location := start_location s;
           destination := destination s;
           start_lat := start_lat s;
           start_lng := start_lng s;
           dest_lat := dest_lat s;
           dest_lng := dest_lng s;
           driver_id := driver_id s;
           vehicle_id := vehicle_id s;
           revenue := revenue s;
           sh_status := newStatus;
           delivered_at := if newStatus =? "delivered" then Some nowISO
                           else delivered_at s |} in
      match updateError db shipmentId with
      | Some message => (Failure message, db, [])
      | None =>
          let ended := (newStatus =? "delivered") || (newStatus =? "cancelled") in
          (Success None,
           {| shipments := update_shipment shipmentId updateData (shipments db);
              drivers :=
                if ended && truthy_string (driver_id shipment)
                then set_driver_status (text (driver_id shipment)) "idle" (drivers db)
                else drivers db;
              vehicles :=
                if ended && truthy_string (vehicle_id shipment)
                then update_vehicle (text (vehicle_id shipment)) cleared (vehicles db)
                else vehicles db |},
           all_paths)
      end
  end.

(** [export async function deleteShipment(shipmentId)] *)
Definition deleteShipment (shipmentId : string) (db : Db)
    : ActionResult * Db * list string :=
  let shipment := single shipmentId (shipments db) in
  match deleteError db shipmentId with
  | Some message => (Failure message, db, [])
  | None =>
      let in_transit :=
        match shipment with
        | Some s => sh_status s =? "in_transit"
        | None => false
        end in
      let driver := match shipment with Some s => driver_id s | None => None end in
      let vehicle := match shipment with Some s => vehicle_id s | None => None end in
      (Success None,
       {| shipments := filter (fun s => negb (sh_id s =? shipmentId)) (shipments db);
          drivers :=
            if in_transit && truthy_string driver
            then set_driver_status (text driver) "idle" (drivers db)
            else drivers db;
          vehicles :=
            if in_transit && truthy_string vehicle
            then update_vehicle (text vehicle) idled (vehicles db)
            else vehicles db |},
       all_paths)
  end.

End WithBackend.

End Actions.

(** ** Sample data for the shipment actions *)

Module ActionSamples.
Import Actions.

Local Open Scope string_scope.

(** A backend for samples: [parseFloat] knows a few numerals, no route
    is found, the database accepts every write. *)
Definition SampleBackend : Backend := {|
  parseFloat := fun s =>
    if s =? "19.5" then 19.5%float
    else if s =? "72.5" then 72.5%float
    else if s =? "18.5" then 18.5%float
    else if s =? "73.75" then 73.75%float
    else if s =? "0" then 0%float
    else nan;
  generateShipmentNumber := "MC-20240101-007";
  fetchRoute := fun _ _ _ _ => None;
  insertedId := "s9";
  insertError := fun _ _ => None;
  updateError := fun _ _ => None;
  deleteError := fun _ _ => None;
  nowISO := "2024-01-02T10:00:00.000Z";
  isoAfter := fun _ => Some "2024-01-01T12:00:00.000Z"
|}.

Definition fleet : Db :=
  {| shipments := [];
     drivers := [ {| dr_id := "d1"; dr_status := "idle" |};
                  {| dr_id := "d2"; dr_status := "idle" |} ];
     vehicles := [ {| ve_id := "v1"; ve_status := "idle";
                      ve_latitude := None; ve_longitude := None;
                      current_route := None; route_index := 0;
                      ve_eta := None |} ] |}.

Definition good_form : FormData :=
  [ ("start_location", "Mumbai"); ("destination", "Pune");
    ("start_location_lat", "19.5"); ("start_location_lng", "72.5");
    ("destination_lat", "18.5"); ("destination_lng", "73.75");
    ("driver_id", "d1"); ("vehicle_id", "v1"); ("revenue", "x") ].

(** The same form with a start on the equator. *)
Definition equator_form : FormData :=
  [ ("start_location", "Quito"); ("destination", "Pune");
    ("start_location_lat", "0"); ("start_location_lng", "72.5");
    ("destination_lat", "18.5"); ("destination_lng", "73.75");
    ("driver_id", "d1"); ("vehicle_id", "v1") ].

(** The database after [good_form] was submitted on [fleet]. *)
Definition fleet_at_work : Db :=
  snd (fst (createShipment (B := SampleBackend) good_form fleet)).

End ActionSamples.

(** ** Samples on which something goes wrong *)

Module Mishaps.
Import Geo Api Service Actions ActionSamples.

Local Open Scope string_scope.

(** A codec that decodes every body to the request whose start and
    single stop are farther apart in latitude than binary64 can tell. *)
Definition far_request : OptimizationRequest :=
  {| Start := far_north; Stops := [far_south] |}.

Definition FarCodec : Codec := {|
  decode := fun _ => Some far_request;
  encode := fun _ => Some "[route]"
|}.



End Mishaps.

(** * Properties *)

(** ** Order of binary64 floats *)

Module FloatOrder.

Ltac sf_compare_cases :=
  repeat match goal with
  | |- context [Z.compare ?a ?b] => destruct (Z.compare_spec a b); subst
  | H : context [Z.compare ?a ?b] |- _ => destruct (Z.compare_spec a b); subst
  | |- context [Pos.compare ?a ?b] => destruct (Pos.compare_spec a b); subst
  | H : context [Pos.compare ?a ?b] |- _ => destruct (Pos.compare_spec a b); subst
  end.

(** Case analysis on the classes and signs of the floats in sight,
    then on the comparisons of exponents and mantissas. *)
Ltac sf_order :=
  unfold SFltb, SFleb, SFeqb, SFcompare;
  repeat match goal with x : spec_float |- _ => destruct x end;
  repeat match goal with s : bool |- _ => destruct s end;
  simpl; intros; try congruence;
  change PosDef.Pos.compare_cont with Pos.compare_cont in *;
  repeat match goal with
  | H : context [Pos.compare_cont Eq ?a ?b] |- _ =>
      change (Pos.compare_cont Eq a b) with (Pos.compare a b) in H
  | |- context [Pos.compare_cont Eq ?a ?b] =>
      change (Pos.compare_cont Eq a b) with (Pos.compare a b)
  end;
  sf_compare_cases; simpl in *; try congruence; try lia.

Lemma SFltb_trans x y z :
  SFltb x y = true -> SFltb y z = true -> SFltb x z = true.
Proof. sf_order. Qed.

Lemma SFleb_ltb_trans x y z :
  SFleb x y = true -> SFltb y z = true -> SFltb x z = true.
Proof. sf_order. Qed.

Lemma SFltb_total x y :
  SFltb x y = false -> SFeqb x x = true -> SFeqb y y = true -> SFleb y x = true.
Proof. sf_order. Qed.

Lemma SFleb_total x y :
  SFleb x y = false -> SFeqb x x = true -> SFeqb y y = true -> SFltb y x = true.
Proof. sf_order. Qed.

Lemma SFltb_irrefl x : SFltb x x = false.
Proof. sf_order. Qed.

Lemma SFltb_number x y : SFltb x y = true -> SFeqb x x = true.
Proof. sf_order. Qed.

Local Open Scope float_scope.

Lemma ltb_trans x y z : (x <? y) = true -> (y <? z) = true -> (x <? z) = true.
Proof. rewrite !FloatAxioms.ltb_spec. apply SFltb_trans. Qed.

Lemma leb_ltb_trans x y z : (x <=? y) = true -> (y <? z) = true -> (x <? z) = true.
Proof. rewrite FloatAxioms.leb_spec, !FloatAxioms.ltb_spec. apply SFleb_ltb_trans. Qed.

Lemma ltb_irrefl x : (x <? x) = false.
Proof. rewrite FloatAxioms.ltb_spec. apply SFltb_irrefl. Qed.

Lemma is_nan_false x : is_nan x = false <-> (x =? x) = true.
Proof. unfold is_nan. destruct (x =? x); simpl; intuition congruence. Qed.

(** Among numbers, [<] is total. *)
Lemma ltb_total x y :
  (x <? y) = false -> is_nan x = false -> is_nan y = false -> (y <=? x) = true.
Proof.
  intros H Hx Hy. apply is_nan_false in Hx, Hy.
  rewrite FloatAxioms.ltb_spec in H. rewrite FloatAxioms.eqb_spec in Hx, Hy. rewrite FloatAxioms.leb_spec.
  now apply SFltb_total.
Qed.

Lemma leb_total x y :
  (x <=? y) = false -> is_nan x = false -> is_nan y = false -> (y <? x) = true.
Proof.
  intros H Hx Hy. apply is_nan_false in Hx, Hy.
  rewrite FloatAxioms.leb_spec in H. rewrite FloatAxioms.eqb_spec in Hx, Hy.
  rewrite FloatAxioms.ltb_spec. now apply SFleb_total.
Qed.

(** Whatever compares below something is a number. *)
Lemma ltb_number x y : (x <? y) = true -> is_nan x = false.
Proof.
  intros H. apply is_nan_false. rewrite FloatAxioms.ltb_spec in H. rewrite FloatAxioms.eqb_spec.
  now apply SFltb_number in H.
Qed.

Lemma ltb_asym x y : (x <? y) = true -> (y <? x) = false.
Proof.
  intros H. destruct (y <? x) eqn:E; [|reflexivity].
  pose proof (ltb_trans H E) as C. now rewrite ltb_irrefl in C.
Qed.

Lemma ltb_not_leb x y : (x <? y) = true -> (y <=? x) = false.
Proof.
  intros H. destruct (y <=? x) eqn:E; [|reflexivity].
  pose proof (leb_ltb_trans E H) as C. now rewrite ltb_irrefl in C.
Qed.

End FloatOrder.

(** ** The route sequencer *)

Module GeoFacts.
Import Geo FloatOrder.

Section WithMath.
Context {M : GoMath}.

(** The index returned by the inner loop is the incoming one or the
    position of an element of the scanned slice. *)
Lemma scan_index_range current rem : forall i idx md,
  fst (scan current i rem idx md) = idx \/
  (i <= fst (scan current i rem idx md) < i + Z.of_nat (length rem))%Z.
Proof.
  induction rem as [|stop rest IH]; intros i idx md; simpl scan.
  - now left.
  - destruct (Distance current stop <? md)%float.
    + right. destruct (IH (i + 1)%Z i (Distance current stop)) as [-> | H];
        simpl length; lia.
    + destruct (IH (i + 1)%Z idx md) as [H | H]; [now left | right].
      simpl length; lia.
Qed.

(** When the inner loop leaves the incoming index in place, no scanned
    distance was below the incoming minimum. *)
Lemma scan_unchanged current rem : forall i idx md,
  (idx < i)%Z ->
  fst (scan current i rem idx md) = idx ->
  Forall (fun s => (Distance current s <? md)%float = false) rem.
Proof.
  induction rem as [|stop rest IH]; intros i idx md Hlt Hfst; simpl scan in Hfst.
  - constructor.
  - destruct (Distance current stop <? md)%float eqn:E.
    + destruct (scan_index_range current rest (i + 1) i (Distance current stop))
        as [H | H]; rewrite Hfst in H; lia.
    + constructor; [exact E | apply (IH (i + 1)%Z idx md); [lia | exact Hfst]].
Qed.

Lemma index_Some s i x :
  index s i = Some x <-> (0 <= i)%Z /\ nth_error s (Z.to_nat i) = Some x.
Proof.
  unfold index. destruct (Z.ltb_spec i 0); split; try tauto; try lia;
    try discriminate; try (intros [? _]; lia).
Qed.

Lemma remove_at_split s i x :
  index s i = Some x ->
  s = firstn (Z.to_nat i) s ++ x :: skipn (Z.to_nat (i + 1)) s.
Proof.
  rewrite index_Some. intros [Hi Hn].
  replace (Z.to_nat (i + 1)) with (S (Z.to_nat i)) by lia.
  revert s Hn. generalize (Z.to_nat i) as n.
  induction n as [|n IH]; intros [|y s] Hn; simpl in *; try discriminate.
  - now inversion Hn.
  - f_equal. now apply IH.
Qed.

Lemma remove_at_perm s i x :
  index s i = Some x -> Permutation s (x :: remove_at s i).
Proof.
  intros H. rewrite (remove_at_split s i H) at 1.
  symmetry. apply Permutation_middle.
Qed.

Lemma remove_at_length s i x :
  index s i = Some x -> S (length (remove_at s i)) = length s.
Proof.
  intros H. apply remove_at_perm in H. apply Permutation_length in H.
  simpl in H. congruence.
Qed.

(** An iteration that starts with a stop in reach selects a stop. *)
Lemma iteration_selects st :
  Exists (fun s => (Distance (current st) s <? MaxFloat64)%float = true) (remaining st) ->
  exists x, index (remaining st) (nearest st) = Some x.
Proof.
  intros Hex. unfold nearest.
  destruct (scan_index_range (current st) (remaining st) 0 (-1) MaxFloat64) as [H | H].
  - apply scan_unchanged with (i := 0%Z) in H; [|lia].
    rewrite Forall_forall in H. rewrite Exists_exists in Hex.
    destruct Hex as (s & Hin & Hs). rewrite (H s Hin) in Hs. discriminate.
  - set (k := fst _) in *.
    destruct (nth_error (remaining st) (Z.to_nat k)) as [x|] eqn:E.
    + exists x. apply index_Some. split; [lia | exact E].
    + apply nth_error_None in E. lia.
Qed.

(** The loop bound of [SolveTSPNearestNeighbor] is never the reason
    for stopping: the pool shrinks by one stop per iteration. *)
Lemma loop_fuel_enough : forall fuel st,
  length (remaining st) <= fuel -> loop fuel st <> OutOfFuel.
Proof.
  induction fuel as [|fuel IH]; intros st Hlen; simpl.
  - destruct (remaining st); [discriminate | simpl in Hlen; lia].
  - destruct (remaining st) as [|y rest] eqn:Erem; [discriminate|].
    unfold iteration. rewrite Erem.
    destruct (index (y :: rest) (nearest st)) as [x|] eqn:E; [|discriminate].
    apply IH. simpl remaining. apply remove_at_length in E.
    simpl in Hlen, E. lia.
Qed.

Lemma SolveTSP_terminates start stops :
  SolveTSPNearestNeighbor start stops <> OutOfFuel.
Proof.
  unfold SolveTSPNearestNeighbor. destruct stops as [|s stops]; [discriminate|].
  apply loop_fuel_enough. simpl. lia.
Qed.

(** The loop keeps [route ++ remaining] a permutation of itself and
    returns once the pool is empty. *)
Lemma loop_permutation : forall fuel st,
  length (remaining st) <= fuel ->
  (forall c s, In c (current st :: remaining st) -> In s (remaining st) ->
               (Distance c s <? MaxFloat64)%float = true) ->
  exists r, loop fuel st = Returned r /\ Permutation (route st ++ remaining st) r.
Proof.
  induction fuel as [|fuel IH]; intros st Hlen Hord; simpl.
  - destruct (remaining st); [|simpl in Hlen; lia].
    exists (route st). now rewrite app_nil_r.
  - destruct (remaining st) as [|y rest] eqn:Erem.
    { exists (route st). now rewrite app_nil_r. }
    destruct (iteration_selects st) as [x Hx].
    { rewrite Erem. apply Exists_cons_hd. apply Hord; simpl; auto. }
    unfold iteration. rewrite Hx. rewrite Erem in Hx.
    pose proof (remove_at_perm _ _ Hx) as Hperm.
    pose proof (remove_at_length _ _ Hx) as Hl.
    destruct (IH {| remaining := remove_at (remaining st) (nearest st);
                    route := route st ++ [x]; current := x |}) as (r & Hr & Hp).
    + simpl remaining. rewrite Erem. lia.
    + simpl remaining. simpl current. rewrite Erem. intros c s Hc Hs. apply Hord.
      * right. eapply Permutation_in; [symmetry; exact Hperm | exact Hc].
      * eapply Permutation_in; [symmetry; exact Hperm | now right].
    + exists r. split; [exact Hr|].
      simpl in Hp. rewrite Erem in Hp. rewrite <- Hp, <- app_assoc. simpl.
      now apply Permutation_app_head.
Qed.





(** What the inner loop selects: either nothing (no scanned distance is
    below the incoming minimum), or the position [n] of a stop [x] such
    that no scanned stop is closer and every stop scanned before it is
    not even as close. *)
Lemma scan_selects current rem : forall i idx md,
  (fst (scan current i rem idx md) = idx /\
   Forall (fun s => (Distance current s <? md)%float = false) rem) \/
  (exists n x,
     fst (scan current i rem idx md) = (i + Z.of_nat n)%Z /\
     nth_error rem n = Some x /\
     (Distance current x <? md)%float = true /\
     forall j s, nth_error rem j = Some s ->
       (Distance current s <? Distance current x)%float = false /\
       (j < n -> (Distance current s <=? Distance current x)%float = false)).
Proof.
  induction rem as [|stop rest IH]; intros i idx md; simpl scan.
  - left. split; [reflexivity | constructor].
  - destruct (Distance current stop <? md)%float eqn:E.
    + right.
      destruct (IH (i + 1)%Z i (Distance current stop))
        as [[Hk Hall] | (n & x & Hk & Hn & Hlt & Hmin)].
      * exists 0, stop. rewrite Hk.
        split; [lia | split; [reflexivity | split; [exact E |]]].
        intros [|j] s Hs; simpl in Hs.
        -- inversion Hs; subst. split; [apply ltb_irrefl | lia].
        -- rewrite Forall_forall in Hall.
           split; [apply Hall; eapply nth_error_In; eauto | lia].
      * exists (S n), x. rewrite Hk.
        split; [lia | split; [exact Hn | split; [eapply ltb_trans; eauto |]]].
        intros [|j] s Hs; simpl in Hs.
        -- inversion Hs; subst.
           split; [now apply ltb_asym | intros _; now apply ltb_not_leb].
        -- destruct (Hmin j s Hs) as [H1 H2]. split; [exact H1 | intros; apply H2; lia].
    + destruct (IH (i + 1)%Z idx md)
        as [[Hk Hall] | (n & x & Hk & Hn & Hlt & Hmin)].
      * left. split; [exact Hk | now constructor].
      * right. exists (S n), x. rewrite Hk.
        split; [lia | split; [exact Hn | split; [exact Hlt |]]].
        intros [|j] s Hs; simpl in Hs.
        -- inversion Hs; subst. split.
           ++ destruct (Distance current s <? Distance current x)%float eqn:C;
                [|reflexivity].
              rewrite (ltb_trans C Hlt) in E. discriminate.
           ++ intros _.
              destruct (Distance current s <=? Distance current x)%float eqn:C;
                [|reflexivity].
              rewrite (leb_ltb_trans C Hlt) in E. discriminate.
        -- destruct (Hmin j s Hs) as [H1 H2]. split; [exact H1 | intros; apply H2; lia].
Qed.

Lemma subseq_refl {A} (l : list A) : subseq l l.
Proof. induction l; [apply subseq_nil | now apply subseq_keep]. Qed.

Lemma subseq_trans {A} (l1 l2 l3 : list A) :
  subseq l1 l2 -> subseq l2 l3 -> subseq l1 l3.
Proof.
  intros H12 H23. revert l1 H12.
  induction H23; intros l0 H12.
  - exact H12.
  - apply subseq_skip. auto.
  - inversion H12; subst; [apply subseq_skip | apply subseq_keep]; auto.
Qed.

Lemma subseq_remove {A} (l : list A) : forall n,
  subseq (firstn n l ++ skipn (S n) l) l.
Proof.
  induction l as [|x l IH]; intros [|n]; simpl; try apply subseq_nil.
  - apply subseq_skip, subseq_refl.
  - apply subseq_keep, IH.
Qed.

(** The pool always lists unvisited stops in their input order. *)
Lemma reachable_subseq start stops st :
  reachable start stops st -> subseq (remaining st) stops.
Proof.
  induction 1 as [|st st' Hreach IH Hit].
  - apply subseq_refl.
  - unfold iteration in Hit.
    destruct (index (remaining st) (nearest st)) as [x|] eqn:E; [|discriminate].
    inversion Hit; subst; clear Hit. simpl remaining.
    apply subseq_trans with (l2 := remaining st); [|exact IH].
    unfold remove_at. apply index_Some in E. destruct E as [Hk _].
    replace (Z.to_nat (nearest st + 1)) with (S (Z.to_nat (nearest st))) by lia.
    apply subseq_remove.
Qed.

(** The route and the pool always share out the input stops. *)
Lemma reachable_permutation start stops st :
  reachable start stops st -> Permutation stops (route st ++ remaining st).
Proof.
  induction 1 as [|st st' Hreach IH Hit].
  - reflexivity.
  - unfold iteration in Hit.
    destruct (index (remaining st) (nearest st)) as [x|] eqn:E; [|discriminate].
    inversion Hit; subst; clear Hit. simpl.
    rewrite IH, <- app_assoc. simpl.
    apply Permutation_app_head. now apply remove_at_perm.
Qed.

(** The current position is the start or an input stop. *)
Lemma reachable_current start stops st :
  reachable start stops st -> In (current st) (start :: stops).
Proof.
  intros Hreach. destruct Hreach as [|st st' Hreach Hit]; [now left|].
  unfold iteration in Hit.
  destruct (index (remaining st) (nearest st)) as [x|] eqn:E; [|discriminate].
  inversion Hit; subst; clear Hit. simpl. right.
  eapply Permutation_in; [symmetry; exact (reachable_permutation Hreach)|].
  apply in_or_app. right.
  apply index_Some in E. destruct E as [_ E]. eapply nth_error_In; eauto.
Qed.

(** The stop an iteration selects. *)
Lemma iteration_selects_nearest st st' :
  iteration st = Returned st' ->
  exists k next,
    nth_error (remaining st) k = Some next /\
    route st' = route st ++ [next] /\
    current st' = next /\
    remaining st' = firstn k (remaining st) ++ skipn (S k) (remaining st) /\
    (Distance (current st) next <? MaxFloat64)%float = true /\
    forall j s, nth_error (remaining st) j = Some s ->
      (Distance (current st) s <? Distance (current st) next)%float = false /\
      (j < k ->
       (Distance (current st) s <=? Distance (current st) next)%float = false).
Proof.
  unfold iteration. intros Hit.
  destruct (index (remaining st) (nearest st)) as [x|] eqn:E; [|discriminate].
  inversion Hit; subst; clear Hit. simpl.
  apply index_Some in E. destruct E as [Hk Hnth].
  unfold remove_at.
  replace (Z.to_nat (nearest st + 1)) with (S (Z.to_nat (nearest st))) by lia.
  unfold nearest in *.
  destruct (scan_selects (current st) (remaining st) 0 (-1) MaxFloat64)
    as [[Hidx _] | (n & y & Hidx & Hn & Hlt & Hmin)].
  - rewrite Hidx in Hk. lia.
  - rewrite Hidx in *. clear Hidx.
    replace (Z.to_nat (0 + Z.of_nat n)) with n in * by lia.
    assert (x = y) by congruence. subst y.
    exists n, x.
    split; [exact Hn | split; [reflexivity | split; [reflexivity |]]].
    split; [reflexivity | split; [exact Hlt | exact Hmin]].
Qed.

(** From a reachable state the loop ends as it does from the start. *)
Lemma reachable_loop start stops st :
  reachable start stops st ->
  loop (length (remaining st)) st =
  loop (length stops) {| remaining := stops; route := []; current := start |}.
Proof.
  induction 1 as [|st st' Hreach IH Hit]; [reflexivity|].
  rewrite <- IH. clear IH.
  pose proof Hit as Hit'. unfold iteration in Hit'.
  destruct (index (remaining st) (nearest st)) as [x|] eqn:E; [|discriminate].
  inversion Hit'; subst st'; clear Hit'. simpl remaining.
  pose proof (remove_at_length _ _ E) as Hl.
  destruct (remaining st) as [|y rest] eqn:Erem.
  { apply index_Some in E. destruct E as [_ E].
    destruct (Z.to_nat (nearest st)); discriminate. }
  rewrite <- Hl. cbn [loop]. rewrite Erem, Hit. rewrite <- Erem. reflexivity.
Qed.

Lemma SolveTSP_is_loop start stops :
  SolveTSPNearestNeighbor start stops =
  loop (length stops) {| remaining := stops; route := []; current := start |}.
Proof. destruct stops; reflexivity. Qed.




End WithMath.





(** C4: in every loop state the sequencer reaches with a non-empty
    pool, the pool holds the stops not yet in the route, in their input
    order; an iteration that appends a stop appends one at minimum
    distance from the current position (among the stops whose distance
    is a number), strictly closer than every stop before it in the
    pool, so that ties go to the stop that comes first in the input;
    that stop leaves the pool and becomes the current position.  When
    the distances of the input are ordinary, the iteration does append
    a stop. *)
Theorem iteration_nearest_earliest (M : GoMath) start stops st :
  reachable start stops st ->
  remaining st <> [] ->
  Permutation stops (route st ++ remaining st) /\
  subseq (remaining st) stops /\
  (forall st', iteration st = Returned st' -> takes_nearest st st') /\
  (distances_ordinary start stops = true ->
   exists st', iteration st = Returned st').
Proof.
  intros Hreach Hne.
  split; [exact (reachable_permutation Hreach)|].
  split; [exact (reachable_subseq Hreach)|].
  split.
  - intros st' Hit.
    destruct (iteration_selects_nearest st Hit)
      as (k & next & Hk & Hroute & Hcur & Hrem & Hlt & Hmin).
    exists k, next. repeat (split; [assumption|]).
    intros j s Hs Hnum. destruct (Hmin j s Hs) as [H1 H2].
    pose proof (ltb_number Hlt) as Hnext.
    split.
    + now apply ltb_total.
    + intros Hjk. apply leb_total; auto.
  - intros Hord. unfold distances_ordinary in Hord. rewrite forallb_forall in Hord.
    destruct (remaining st) as [|y rest] eqn:Erem; [congruence|].
    assert (Hy : In y stops).
    { eapply Permutation_in; [symmetry; exact (reachable_permutation Hreach)|].
      rewrite Erem. apply in_or_app. right. now left. }
    pose proof (Hord _ (reachable_current Hreach)) as Hrow.
    rewrite forallb_forall in Hrow.
    destruct (iteration_selects st) as [x Hx].
    { rewrite Erem. apply Exists_cons_hd. now apply Hrow. }
    unfold iteration. rewrite Hx. eexists. reflexivity.
Qed.

Lemma iteration_nearest_earliest_witness :
  reachable (M := SmallAngle) depot [stopA; stopB; stopC] sample_before /\
  remaining sample_before <> [] /\
  iteration (M := SmallAngle) sample_before = Returned sample_after /\
  (Distance (M := SmallAngle) depot stopB =? Distance (M := SmallAngle) depot stopC)%float = true /\
  takes_nearest (M := SmallAngle) sample_before sample_after.
Proof.
  assert (Hreach : reachable (M := SmallAngle) depot [stopA; stopB; stopC] sample_before)
    by apply reach_init.
  assert (Hne : remaining sample_before <> []) by discriminate.
  assert (Hit : iteration (M := SmallAngle) sample_before = Returned sample_after)
    by (vm_compute; reflexivity).
  split; [exact Hreach | split; [exact Hne | split; [exact Hit |]]].
  split; [vm_compute; reflexivity |].
  destruct (@iteration_nearest_earliest SmallAngle depot [stopA; stopB; stopC]
              sample_before Hreach Hne) as (_ & _ & Hnear & _).
  exact (Hnear sample_after Hit).
Defined.

End GeoFacts.

(** ** The fleet load allocator *)

Module AllocFacts.
Import Alloc.
Local Open Scope Q_scope.

Example scenario_allocation :
  OptimizeFleetAllocation scenario =
  {| assignments := [("V1"%string, ["S1"%string])]; unassigned := ["S2"%string] |}.
Proof. reflexivity. Qed.

Example two_trucks_allocation :
  OptimizeFleetAllocation two_trucks =
  {| assignments := [("V1"%string, ["S4"; "S1"]%string); ("V2"%string, ["S2"%string])];
     unassigned := ["S3"%string] |}.
Proof. vm_compute. reflexivity. Qed.


(** The position [best_fit] returns is the incoming one or that of a
    vehicle with room for the weight. *)
Lemma best_fit_sound w bs : forall i best k r,
  best_fit w bs i best = Some (k, r) ->
  best = Some (k, r) \/
  exists b, (i <= k)%nat /\ nth_error bs (k - i) = Some b /\
            r = bin_remaining b /\ w <= r.
Proof.
  induction bs as [|b rest IH]; intros i best k r H; simpl in H.
  - now left.
  - apply IH in H. destruct H as [H | (b' & Hle & Hn & Hr & Hw)].
    + destruct (Qle_bool w (bin_remaining b)) eqn:E; [|left; exact H].
      apply Qle_bool_iff in E.
      assert (Hhere : Some (i, bin_remaining b) = Some (k, r) ->
                exists b0 : Bin, (i <= k)%nat /\
                  nth_error (b :: rest) (k - i) = Some b0 /\
                  r = bin_remaining b0 /\ w <= r).
      { intros Heq. inversion Heq; subst. exists b.
        rewrite Nat.sub_diag. simpl. auto. }
      destruct best as [[k0 r0]|].
      * destruct (Qle_bool r0 (bin_remaining b)); [left; exact H | right; auto].
      * right; auto.
    + right. exists b'. split; [lia|]. split; [|auto].
      replace (k - i)%nat with (S (k - S i)) by lia. exact Hn.
Qed.



Lemma update_at_load i s bs b :
  nth_error bs i = Some b ->
  Permutation (concat (map bin_load (update_at i (assign s) bs)))
              (s :: concat (map bin_load bs)).
Proof.
  revert i. induction bs as [|b0 rest IH]; intros [|i] Hn; simpl in *;
    try discriminate.
  - rewrite <- app_assoc. simpl. symmetry. apply Permutation_middle.
  - rewrite (IH i Hn). symmetry. apply Permutation_middle.
Qed.



(** One assignment step adds the shipment to exactly one list. *)
Lemma place_conserves st s :
  Permutation (placed (place st s)) (s :: placed st).
Proof.
  unfold place, placed.
  destruct (best_fit (WeightKg s) (bins st) 0 None) as [[i r]|] eqn:E; simpl.
  - apply best_fit_sound in E. destruct E as [E | (b & _ & Hn & _)];
      [discriminate|].
    rewrite Nat.sub_0_r in Hn.
    rewrite (update_at_load i s (bins st) Hn). reflexivity.
  - rewrite app_assoc. symmetry. apply Permutation_cons_append.
Qed.



Lemma steps_conserve l : forall st,
  Permutation (placed (fold_left place l st)) (l ++ placed st).
Proof.
  induction l as [|s l IH]; intros st; simpl; auto.
  rewrite IH, place_conserves. symmetry. apply Permutation_middle.
Qed.

Lemma insert_desc_perm s l : Permutation (insert_desc s l) (s :: l).
Proof.
  induction l as [|t l IH]; simpl; auto.
  destruct (Qle_bool (WeightKg t) (WeightKg s)); auto.
  rewrite IH. apply perm_swap.
Qed.

Lemma sort_desc_perm l : Permutation (sort_desc l) l.
Proof.
  induction l as [|s l IH]; simpl; auto.
  rewrite insert_desc_perm. now constructor.
Qed.






(** C3: the ids assigned to the vehicles together with the unassigned
    ids are, as a multiset, the ids of the input shipments: nothing is
    dropped, nothing is duplicated. *)
Theorem allocation_conserves_shipments req :
  Permutation
    (concat (map snd (assignments (OptimizeFleetAllocation req))) ++
     unassigned (OptimizeFleetAllocation req))
    (map SID (Shipments req)).
Proof.
  unfold OptimizeFleetAllocation, to_allocation. simpl.
  set (st := fold_left place _ _).
  rewrite map_map. simpl. rewrite <- (map_map bin_load (map SID)).
  rewrite <- concat_map, <- map_app. apply Permutation_map.
  change (Permutation (placed st) (Shipments req)). unfold st.
  rewrite steps_conserve. unfold placed, init. simpl.
  rewrite app_nil_r.
  assert (E : concat (map bin_load (map (fun v => {| bin_vehicle := v;
               bin_remaining := CapacityKg v; bin_load := [] |})
               (Vehicles req))) = []).
  { induction (Vehicles req); simpl; auto. }
  rewrite E, app_nil_r. apply sort_desc_perm.
Qed.





End AllocFacts.

(** ** Determinism of the two solvers *)

Module DeterminismFacts.
Import Geo Alloc.



End DeterminismFacts.

(** ** The HTTP handlers *)

Module ApiFacts.
Import Geo Alloc Api.
Local Open Scope string_scope.
Unset Implicit Arguments.

Section Handlers.
Context {D : Deps}.

(** [http.Error] on a writer without status: the status is the given
    one, the solver log is untouched, and the handler goes on. *)
Lemma http_Error_sends msg code w :
  status (rw w) = None ->
  exists r', http_Error msg code w = (Returned (Some tt), {| rw := r'; calls := calls w |}) /\
             status r' = Some code.
Proof.
  intros Hs. unfold http_Error, Write, WriteHeader, Header_Set, on_writer, bind.
  simpl. rewrite Hs. eexists. split; reflexivity.
Qed.

Lemma bind_pure {A B} (a : A) (k : A -> Handler B) w :
  bind (pure a) k w = k a w.
Proof. reflexivity. Qed.

Lemma bind_goes_on {A B} {m : Handler A} (k : A -> Handler B) {w a w'} :
  m w = (Returned (Some a), w') -> bind m k w = k a w'.
Proof. intros E. unfold bind. now rewrite E. Qed.

Lemma bind_returns {A B} {m : Handler A} (k : A -> Handler B) {w w'} :
  m w = (Returned None, w') -> bind m k w = (Returned None, w').
Proof. intros E. unfold bind. now rewrite E. Qed.

Lemma reject_returns {A} msg code w :
  status (rw w) = None ->
  exists r', (http_Error msg code ;; return_ (A := A)) w =
             (Returned None, {| rw := r'; calls := calls w |}) /\
             status r' = Some code.
Proof.
  intros Hs. destruct (http_Error_sends msg code w Hs) as (r' & E & Hr').
  exists r'. split; [|exact Hr']. now rewrite (bind_goes_on _ E).
Qed.

(** The validation loop lets a list of positive weights through. *)
Lemma check_weights_pass {shipments} w :
  Forall (fun s => (0 < WeightKg s)%Q) shipments ->
  check_weights shipments w = (Returned (Some tt), w).
Proof.
  induction 1 as [|s rest Hs _ IH]; simpl; [reflexivity|].
  assert (E : Qle_bool (WeightKg s) 0 = false).
  { destruct (Qle_bool (WeightKg s) 0) eqn:E; [|reflexivity].
    apply Qle_bool_iff in E. lra. }
  rewrite E. unfold when. rewrite bind_pure. exact IH.
Qed.

(** The validation loop stops with 400 at the first weight that is not
    positive. *)
Lemma check_weights_reject {shipments} w :
  Exists (fun s => (WeightKg s <= 0)%Q) shipments ->
  status (rw w) = None ->
  exists r', check_weights shipments w = (Returned None, {| rw := r'; calls := calls w |}) /\
             status r' = Some StatusBadRequest.
Proof.
  intros Hex Hs. induction shipments as [|s rest IH]; [inversion Hex|].
  simpl. destruct (Qle_bool (WeightKg s) 0) eqn:E; unfold when.
  - destruct (reject_returns (A := unit) "Shipment weight must be positive"
                StatusBadRequest w Hs) as (r' & Er & Hr').
    exists r'. split; [|exact Hr']. now rewrite (bind_returns _ Er).
  - rewrite bind_pure. apply IH.
    inversion Hex; subst; [|assumption].
    apply Qle_bool_iff in H0. congruence.
Qed.

Lemma weights_positive_or_not shipments :
  Forall (fun s => (0 < WeightKg s)%Q) shipments \/
  Exists (fun s => (WeightKg s <= 0)%Q) shipments.
Proof.
  induction shipments as [|s rest [IH | IH]]; [left; constructor | |].
  - destruct (Qlt_le_dec 0 (WeightKg s)); [left | right]; now constructor.
  - right. now constructor.
Qed.

(** The method check, common to both optimize handlers. *)
Lemma method_check_rejects {r} (rest : Handler unit) :
  Method r <> MethodPost ->
  exists r',
    (when (negb (Method r =? MethodPost))
       (http_Error "Method not allowed" StatusMethodNotAllowed ;; return_) ;; rest) fresh =
    (Returned None, {| rw := r'; calls := [] |}) /\
    status r' = Some StatusMethodNotAllowed.
Proof.
  intros Hm. apply String.eqb_neq in Hm. rewrite Hm. simpl negb. unfold when.
  destruct (reject_returns (A := unit) "Method not allowed" StatusMethodNotAllowed
              fresh eq_refl) as (r' & E & Hr').
  exists r'. split; [|exact Hr']. now rewrite (bind_returns _ E).
Qed.

Lemma method_check_passes {r} (rest : Handler unit) :
  Method r = MethodPost ->
  (when (negb (Method r =? MethodPost))
     (http_Error "Method not allowed" StatusMethodNotAllowed ;; return_) ;; rest) fresh =
  rest fresh.
Proof.
  intros Hm. rewrite Hm, String.eqb_refl. reflexivity.
Qed.

(** The ways through [OptimizeLoadHandler]. *)
Lemma load_wrong_method r :
  Method r <> MethodPost ->
  exists r', OptimizeLoadHandler r fresh = (Returned None, {| rw := r'; calls := [] |}) /\
             status r' = Some StatusMethodNotAllowed.
Proof. intros Hm. now apply method_check_rejects. Qed.

Lemma load_malformed r :
  Method r = MethodPost -> decodeLoad (Body r) = None ->
  exists r', OptimizeLoadHandler r fresh = (Returned None, {| rw := r'; calls := [] |}) /\
             status r' = Some StatusBadRequest.
Proof.
  intros Hm Hd. unfold OptimizeLoadHandler.
  rewrite (method_check_passes _ Hm), Hd.
  destruct (reject_returns (A := LoadRequest) "Invalid request body" StatusBadRequest
              fresh eq_refl) as (r' & E & Hr').
  exists r'. split; [|exact Hr']. now rewrite (bind_returns _ E).
Qed.

Lemma load_bad_weight r req :
  Method r = MethodPost -> decodeLoad (Body r) = Some req ->
  Exists (fun s => (WeightKg s <= 0)%Q) (Shipments req) ->
  exists r', OptimizeLoadHandler r fresh = (Returned None, {| rw := r'; calls := [] |}) /\
             status r' = Some StatusBadRequest.
Proof.
  intros Hm Hd Hex. unfold OptimizeLoadHandler.
  rewrite (method_check_passes _ Hm), Hd, bind_pure.
  destruct (check_weights_reject fresh Hex eq_refl) as (r' & E & Hr').
  exists r'. split; [|exact Hr']. now rewrite (bind_returns _ E).
Qed.

(** Past the checks, the solver is called, once; what follows writes
    the response and calls nothing. *)
Lemma respond_calls {Req Resp} (tag : Req -> Call) f (encode : Resp -> option string) req :
  calls (snd ((resp <- call tag f req ;;
               Header_Set "Content-Type" "application/json" ;;
               json_Encode encode resp) fresh)) = [tag req].
Proof.
  unfold bind, call. simpl. destruct (f req) as [resp| |]; simpl; auto.
  unfold json_Encode. destruct (encode resp); reflexivity.
Qed.

Lemma respond_reply {Req Resp} (tag : Req -> Call) f (encode : Resp -> option string) req :
  reply ((resp <- call tag f req ;;
          Header_Set "Content-Type" "application/json" ;;
          json_Encode encode resp) fresh) =
  match f req with Returned _ => Some StatusOK | _ => None end.
Proof.
  unfold bind, call. simpl. destruct (f req) as [resp| |]; simpl; auto.
  unfold json_Encode. destruct (encode resp); reflexivity.
Qed.

Lemma rejected_reply (h : Handler unit) r' code :
  h fresh = (Returned None, {| rw := r'; calls := [] |}) ->
  status r' = Some code ->
  reply (h fresh) = Some code /\ calls (snd (h fresh)) = [].
Proof.
  intros E Hs. rewrite E. unfold reply, status_sent. simpl. now rewrite Hs.
Qed.

Lemma load_reaches_solver r req :
  Method r = MethodPost -> decodeLoad (Body r) = Some req ->
  Forall (fun s => (0 < WeightKg s)%Q) (Shipments req) ->
  calls (snd (OptimizeLoadHandler r fresh)) = [CallOptimizeFleet req] /\
  reply (OptimizeLoadHandler r fresh) =
    match solver_OptimizeFleetAllocation req with
    | Returned _ => Some StatusOK
    | _ => None
    end.
Proof.
  intros Hm Hd Hall. unfold OptimizeLoadHandler.
  rewrite (method_check_passes _ Hm), Hd, bind_pure.
  rewrite (bind_goes_on _ (check_weights_pass fresh Hall)).
  split; [apply respond_calls | apply respond_reply].
Qed.

Lemma route_reaches_solver r req :
  Method r = MethodPost -> decodeRoute (Body r) = Some req ->
  calls (snd (OptimizeRouteHandler r fresh)) = [CallSolveTSP req] /\
  reply (OptimizeRouteHandler r fresh) =
    match solver_SolveTSPNearestNeighbor req with
    | Returned _ => Some StatusOK
    | _ => None
    end.
Proof.
  intros Hm Hd. unfold OptimizeRouteHandler.
  rewrite (method_check_passes _ Hm), Hd, bind_pure.
  split; [apply respond_calls | apply respond_reply].
Qed.

Lemma route_wrong_method r :
  Method r <> MethodPost ->
  exists r', OptimizeRouteHandler r fresh = (Returned None, {| rw := r'; calls := [] |}) /\
             status r' = Some StatusMethodNotAllowed.
Proof. intros Hm. now apply method_check_rejects. Qed.

Lemma route_malformed r :
  Method r = MethodPost -> decodeRoute (Body r) = None ->
  exists r', OptimizeRouteHandler r fresh = (Returned None, {| rw := r'; calls := [] |}) /\
             status r' = Some StatusBadRequest.
Proof.
  intros Hm Hd. unfold OptimizeRouteHandler.
  rewrite (method_check_passes _ Hm), Hd.
  destruct (reject_returns (A := OptimizationRequest) "Invalid request body"
              StatusBadRequest fresh eq_refl) as (r' & E & Hr').
  exists r'. split; [|exact Hr']. now rewrite (bind_returns _ E).
Qed.

End Handlers.

(** C5 (as stated, refuted): a vehicle capacity that is not positive
    does not get the request rejected.  The request [no_capacity] has
    a vehicle of capacity 0 and a shipment of 10 kg; the handler calls
    the allocator and answers 200. *)
Lemma load_handler_ignores_capacity :
  ~ (forall (D : Deps) (r : Request) (req : LoadRequest),
       Method r = MethodPost ->
       decodeLoad (Body r) = Some req ->
       Exists (fun v => (CapacityKg v <= 0)%Q) (Vehicles req) ->
       reply (OptimizeLoadHandler r fresh) = Some StatusBadRequest /\
       calls (snd (OptimizeLoadHandler r fresh)) = []).
Proof.
  intros H.
  destruct (H SampleDeps (post "no-capacity") no_capacity eq_refl eq_refl) as [Hr _].
  - constructor. simpl. lra.
  - vm_compute in Hr. discriminate.
Qed.

(** C5 (amended): on a POST, the load handler answers 400 without
    calling the allocator when the body does not decode or some
    shipment weight is not positive; it calls the allocator only on a
    decoded request whose shipment weights are all positive, and on
    every such request, whatever the vehicle capacities. *)
Theorem load_handler_checks_weights (D : Deps) (r : Request) :
  Method r = MethodPost ->
  (decodeLoad (Body r) = None ->
     reply (OptimizeLoadHandler r fresh) = Some StatusBadRequest /\
     calls (snd (OptimizeLoadHandler r fresh)) = []) /\
  (forall req, decodeLoad (Body r) = Some req ->
     Exists (fun s => (WeightKg s <= 0)%Q) (Shipments req) ->
     reply (OptimizeLoadHandler r fresh) = Some StatusBadRequest /\
     calls (snd (OptimizeLoadHandler r fresh)) = []) /\
  (forall c, In c (calls (snd (OptimizeLoadHandler r fresh))) ->
     exists req, decodeLoad (Body r) = Some req /\ c = CallOptimizeFleet req /\
                 Forall (fun s => (0 < WeightKg s)%Q) (Shipments req)) /\
  (forall req, decodeLoad (Body r) = Some req ->
     Forall (fun s => (0 < WeightKg s)%Q) (Shipments req) ->
     calls (snd (OptimizeLoadHandler r fresh)) = [CallOptimizeFleet req]).
Proof.
  intros Hm.
  assert (Hnone : decodeLoad (Body r) = None ->
            reply (OptimizeLoadHandler r fresh) = Some StatusBadRequest /\
            calls (snd (OptimizeLoadHandler r fresh)) = []).
  { intros Hd. destruct (load_malformed r Hm Hd) as (r' & E & Hs).
    exact (rejected_reply _ r' _ E Hs). }
  assert (Hbad : forall req, decodeLoad (Body r) = Some req ->
            Exists (fun s => (WeightKg s <= 0)%Q) (Shipments req) ->
            reply (OptimizeLoadHandler r fresh) = Some StatusBadRequest /\
            calls (snd (OptimizeLoadHandler r fresh)) = []).
  { intros req Hd Hex. destruct (load_bad_weight r req Hm Hd Hex) as (r' & E & Hs).
    exact (rejected_reply _ r' _ E Hs). }
  split; [exact Hnone | split; [exact Hbad | split]].
  - intros c Hc. destruct (decodeLoad (Body r)) as [req|] eqn:Hd.
    + destruct (weights_positive_or_not (Shipments req)) as [Hall | Hex].
      * destruct (load_reaches_solver r req Hm Hd Hall) as [Hcalls _].
        rewrite Hcalls in Hc. destruct Hc as [<- | []].
        exists req. auto.
      * destruct (Hbad req eq_refl Hex) as [_ Hcalls].
        rewrite Hcalls in Hc. destruct Hc.
    + destruct (Hnone eq_refl) as [_ Hcalls]. rewrite Hcalls in Hc. destruct Hc.
  - intros req Hd Hall. now destruct (load_reaches_solver r req Hm Hd Hall).
Qed.

Lemma load_handler_checks_weights_witness :
  Method (post "load") = MethodPost /\
  calls (snd (OptimizeLoadHandler (D := SampleDeps) (post "load") fresh)) =
    [CallOptimizeFleet two_trucks].
Proof.
  split; [reflexivity|].
  apply (load_handler_checks_weights SampleDeps (post "load") eq_refl).
  - reflexivity.
  - repeat constructor.
Defined.

(** C9 (as stated, refuted): no bound on the number of stops makes the
    route handler turn a request away.  Whatever the bound, a request
    with one stop more reaches the sequencer. *)
Lemma route_handler_has_no_size_limit :
  ~ (exists maxStops : nat,
       forall (D : Deps) (r : Request) (req : OptimizationRequest),
         Method r = MethodPost ->
         decodeRoute (Body r) = Some req ->
         (maxStops < length (Stops req))%nat ->
         reply (OptimizeRouteHandler r fresh) <> Some StatusOK /\
         calls (snd (OptimizeRouteHandler r fresh)) = []).
Proof.
  intros [n H].
  destruct (H (ManyStops (S n)) (post "") (many_stops (S n)) eq_refl eq_refl)
    as [_ Hcalls].
  - simpl. rewrite repeat_length. lia.
  - destruct (@route_reaches_solver (ManyStops (S n)) (post "") (many_stops (S n))
                eq_refl eq_refl) as [Hc _].
    rewrite Hc in Hcalls. discriminate.
Qed.

(** C9 (amended): the handlers do not look at the size of a request.
    A POST whose body decodes reaches the sequencer, and a POST whose
    body decodes to positive shipment weights reaches the allocator,
    whatever the number of stops, shipments or vehicles; the reply is
    200 when the solver returns.  The only rejections are 405 (method
    other than POST) and 400 (body that does not decode, shipment
    weight that is not positive). *)
Theorem handlers_accept_any_size (D : Deps) (r : Request) :
  Method r = MethodPost ->
  (forall req, decodeRoute (Body r) = Some req ->
     calls (snd (OptimizeRouteHandler r fresh)) = [CallSolveTSP req] /\
     reply (OptimizeRouteHandler r fresh) =
       match solver_SolveTSPNearestNeighbor req with
       | Returned _ => Some StatusOK
       | _ => None
       end) /\
  (forall req, decodeLoad (Body r) = Some req ->
     Forall (fun s => (0 < WeightKg s)%Q) (Shipments req) ->
     calls (snd (OptimizeLoadHandler r fresh)) = [CallOptimizeFleet req] /\
     reply (OptimizeLoadHandler r fresh) =
       match solver_OptimizeFleetAllocation req with
       | Returned _ => Some StatusOK
       | _ => None
       end) /\
  (forall code, reply (OptimizeRouteHandler r fresh) = Some code ->
     code = StatusOK \/ code = StatusBadRequest) /\
  (forall code, reply (OptimizeLoadHandler r fresh) = Some code ->
     code = StatusOK \/ code = StatusBadRequest).
Proof.
  intros Hm. split; [|split; [|split]].
  - intros req Hd. exact (route_reaches_solver r req Hm Hd).
  - intros req Hd Hall. exact (load_reaches_solver r req Hm Hd Hall).
  - intros code Hc. destruct (decodeRoute (Body r)) as [req|] eqn:Hd.
    + destruct (route_reaches_solver r req Hm Hd) as [_ Hr]. rewrite Hr in Hc.
      destruct (solver_SolveTSPNearestNeighbor req); inversion Hc; auto.
    + destruct (route_malformed r Hm Hd) as (r' & E & Hs).
      destruct (rejected_reply _ r' _ E Hs) as [Hr _]. rewrite Hr in Hc.
      inversion Hc; auto.
  - intros code Hc. destruct (decodeLoad (Body r)) as [req|] eqn:Hd.
    + destruct (weights_positive_or_not (Shipments req)) as [Hall | Hex].
      * destruct (load_reaches_solver r req Hm Hd Hall) as [_ Hr]. rewrite Hr in Hc.
        destruct (solver_OptimizeFleetAllocation req); inversion Hc; auto.
      * destruct (load_bad_weight r req Hm Hd Hex) as (r' & E & Hs).
        destruct (rejected_reply _ r' _ E Hs) as [Hr _]. rewrite Hr in Hc.
        inversion Hc; auto.
    + destruct (load_malformed r Hm Hd) as (r' & E & Hs).
      destruct (rejected_reply _ r' _ E Hs) as [Hr _]. rewrite Hr in Hc.
      inversion Hc; auto.
Qed.

Lemma handlers_accept_any_size_witness :
  Method (post "route") = MethodPost /\
  calls (snd (OptimizeRouteHandler (D := SampleDeps) (post "route") fresh)) =
    [CallSolveTSP sample_route] /\
  reply (OptimizeRouteHandler (D := SampleDeps) (post "route") fresh) = Some StatusOK.
Proof.
  split; [reflexivity|].
  destruct (handlers_accept_any_size SampleDeps (post "route") eq_refl) as [H _].
  destruct (H sample_route eq_refl) as [Hc Hr].
  split; [exact Hc | exact Hr].
Defined.

(** C10: the health handler answers 200 with body "OK" whatever the
    request and its method; the two optimize handlers answer 405 to
    every method other than POST. *)
Theorem health_ignores_method (D : Deps) (r : Request) :
  HealthHandler r fresh =
    (Returned (Some tt),
     {| rw := {| header := []; status := Some StatusOK; written := "OK" |};
        calls := [] |}) /\
  reply (HealthHandler r fresh) = Some StatusOK /\
  (Method r <> MethodPost ->
   reply (OptimizeRouteHandler r fresh) = Some StatusMethodNotAllowed /\
   reply (OptimizeLoadHandler r fresh) = Some StatusMethodNotAllowed).
Proof.
  split; [reflexivity | split; [reflexivity|]].
  intros Hm. split.
  - destruct (route_wrong_method r Hm) as (r' & E & Hs).
    now destruct (rejected_reply _ r' _ E Hs).
  - destruct (load_wrong_method r Hm) as (r' & E & Hs).
    now destruct (rejected_reply _ r' _ E Hs).
Qed.

Lemma health_ignores_method_witness :
  Method delete_request <> MethodPost /\
  reply (HealthHandler delete_request fresh) = Some StatusOK /\
  reply (OptimizeRouteHandler (D := SampleDeps) delete_request fresh) =
    Some StatusMethodNotAllowed.
Proof.
  assert (Hm : Method delete_request <> MethodPost) by discriminate.
  split; [exact Hm|].
  destruct (health_ignores_method SampleDeps delete_request) as (_ & Hh & Ho).
  split; [exact Hh | exact (proj1 (Ho Hm))].
Defined.

End ApiFacts.

(** ** The routing service *)

Module RoutingFacts.
Import Routing.
Local Open Scope string_scope.


(** With the sequencer that keeps the order pickup, drop, the sample
    trip is valid. *)
Example in_order_is_valid :
  snd (optimizeTripSheetRoute (U := InOrder) sample_db "v1" ["s1"]) =
  Resolved
    {| waypoints :=
         [ {| f_order := 0; f_shipmentId := "s1"; f_type := pickup;
              f_location := "Mumbai"; f_distanceFromPrevious := 0%float;
              eta := "N/A" |};
           {| f_order := 1; f_shipmentId := "s1"; f_type := drop;
              f_location := "Pune"; f_distanceFromPrevious := 0%float;
              eta := "N/A" |} ];
       metrics := no_metrics;
       isValid := true;
       errors := [] |}.
Proof. vm_compute. reflexivity. Qed.

(** An unknown vehicle rejects the promise. *)
Example unknown_vehicle_rejects :
  optimizeTripSheetRoute (U := InOrder) sample_db "v9" ["s1"] =
  (["Error optimizing route: Vehicle not found"], Rejected "Vehicle not found").
Proof. reflexivity. Qed.



End RoutingFacts.

(** ** The tour the sequencer returns *)

Module TourFacts.
Import Geo Tour FloatOrder.

Lemma skipn_nth_error {A} (l : list A) : forall k x,
  nth_error l k = Some x -> skipn k l = x :: skipn (S k) l.
Proof.
  induction l as [|y l IH]; intros [|k] x H; simpl in *; try discriminate.
  - now inversion H.
  - now apply IH.
Qed.

Section WithMath.
Context {M : GoMath}.

(** An iteration panics exactly when it is stranded. *)
Lemma iteration_panics_iff st : iteration st = Panic <-> stranded st.
Proof.
  unfold iteration, nearest, stranded.
  destruct (GeoFacts.scan_selects (current st) (remaining st) 0 (-1) MaxFloat64)
    as [[Hidx Hall] | (n & x & Hidx & Hn & Hlt & _)].
  - rewrite Hidx. simpl. tauto.
  - rewrite Hidx. unfold index.
    replace (0 + Z.of_nat n <? 0)%Z with false by (symmetry; apply Z.ltb_ge; lia).
    replace (Z.to_nat (0 + Z.of_nat n)) with n by lia.
    rewrite Hn. split; [discriminate|].
    intros Hall. rewrite Forall_forall in Hall.
    rewrite (Hall x (nth_error_In _ _ Hn)) in Hlt. discriminate.
Qed.

Lemma iteration_never_out_of_fuel st : iteration st <> OutOfFuel.
Proof.
  unfold iteration. destruct (index (remaining st) (nearest st)); discriminate.
Qed.

(** A loop that panics panicked at a reachable, stranded state with a
    non-empty pool. *)
Lemma loop_panics start stops : forall fuel st,
  reachable start stops st -> loop fuel st = Panic ->
  exists st', reachable start stops st' /\ remaining st' <> [] /\ stranded st'.
Proof.
  induction fuel as [|fuel IH]; intros st Hreach Hloop; simpl in Hloop.
  - destruct (remaining st); discriminate.
  - destruct (remaining st) as [|y rest] eqn:Erem; [discriminate|].
    destruct (iteration st) as [st'| |] eqn:Hit.
    + apply (IH st'); [|exact Hloop]. eapply reach_step; eauto.
    + exists st. split; [exact Hreach|]. split; [congruence|].
      now apply iteration_panics_iff.
    + discriminate.
Qed.

(** What a loop returns: the route so far, followed by a greedy chain
    through the pool. *)
Lemma loop_returned : forall fuel st r,
  loop fuel st = Returned r ->
  exists tail, r = route st ++ tail /\
               Permutation (remaining st) tail /\
               greedy (current st) tail.
Proof.
  induction fuel as [|fuel IH]; intros st r Hloop; simpl in Hloop.
  - destruct (remaining st) eqn:Erem; [|discriminate].
    inversion Hloop; subst. exists []. rewrite app_nil_r. simpl. auto.
  - destruct (remaining st) as [|y rest] eqn:Erem.
    + inversion Hloop; subst. exists []. rewrite app_nil_r. simpl. auto.
    + destruct (iteration st) as [st'| |] eqn:Hit; try discriminate.
      destruct (IH st' r Hloop) as (tail & Hr & Hperm & Hgreedy).
      destruct (GeoFacts.iteration_selects_nearest st Hit)
        as (k & next & Hk & Hroute & Hcur & Hrem & Hlt & Hmin).
      rewrite Erem in Hk, Hrem, Hmin.
      assert (Hpool : Permutation (y :: rest) (next :: tail)).
      { rewrite <- Hperm, Hrem.
        rewrite <- (firstn_skipn k (y :: rest)) at 1.
        rewrite (skipn_nth_error _ _ Hk).
        symmetry. apply Permutation_middle. }
      exists (next :: tail). split; [|split; [exact Hpool|]].
      * rewrite Hr, Hroute, <- app_assoc. reflexivity.
      * simpl. split; [exact Hlt|]. split; [|now rewrite <- Hcur].
        intros z Hz Hnum.
        assert (Hin : In z (y :: rest))
          by (eapply Permutation_in; [symmetry; exact Hpool | exact Hz]).
        apply In_nth_error in Hin. destruct Hin as [j Hj].
        destruct (Hmin j z Hj) as [Hnot _].
        apply ltb_total; auto. exact (ltb_number Hlt).
Qed.

End WithMath.

(** X1: whatever the start and the stops, the sequencer either panics
    or returns a permutation of the stops; it never stops for want of
    iterations and never returns part of the stops. *)
Theorem SolveTSP_permutation_or_panic (M : GoMath) start stops :
  SolveTSPNearestNeighbor start stops = Panic \/
  exists r, SolveTSPNearestNeighbor start stops = Returned r /\
            Permutation stops r.
Proof.
  destruct (SolveTSPNearestNeighbor start stops) as [r| |] eqn:E.
  - right. exists r. split; [reflexivity|].
    rewrite GeoFacts.SolveTSP_is_loop in E.
    destruct (loop_returned _ _ E) as (tail & Hr & Hperm & _).
    simpl in Hr, Hperm. now subst r.
  - now left.
  - exfalso. exact (GeoFacts.SolveTSP_terminates start stops E).
Qed.

(** X2: the sequencer panics exactly when it reaches a position, with
    stops still to visit, from which no remaining stop is at a distance
    below [MaxFloat64] (every such distance is NaN). *)
Theorem SolveTSP_panics_iff_stranded (M : GoMath) start stops :
  SolveTSPNearestNeighbor start stops = Panic <->
  exists st, reachable start stops st /\ remaining st <> [] /\ stranded st.
Proof.
  rewrite GeoFacts.SolveTSP_is_loop. split.
  - apply loop_panics. apply reach_init.
  - intros (st & Hreach & Hne & Hstr).
    rewrite <- (GeoFacts.reachable_loop Hreach).
    destruct (remaining st) as [|y rest] eqn:Erem; [congruence|].
    simpl. rewrite Erem.
    assert (Hp : iteration st = Panic).
    { apply iteration_panics_iff. exact Hstr. }
    now rewrite Hp.
Qed.

(** X3: a route the sequencer returns is a greedy chain from the start:
    every stop is at minimum distance from the one before it (the start
    for the first) among the stops from it on, those at NaN distance
    apart. *)
Theorem SolveTSP_route_is_greedy (M : GoMath) start stops r :
  SolveTSPNearestNeighbor start stops = Returned r -> greedy start r.
Proof.
  rewrite GeoFacts.SolveTSP_is_loop. intros E.
  destruct (loop_returned _ _ E) as (tail & Hr & _ & Hgreedy).
  simpl in Hr, Hgreedy. now subst r.
Qed.

Lemma SolveTSP_route_is_greedy_witness :
  SolveTSPNearestNeighbor (M := SmallAngle) depot [stopA; stopB; stopC] =
    Returned [stopB; stopA; stopC] /\
  greedy (M := SmallAngle) depot [stopB; stopA; stopC].
Proof.
  assert (E : SolveTSPNearestNeighbor (M := SmallAngle) depot [stopA; stopB; stopC] =
              Returned [stopB; stopA; stopC]) by (vm_compute; reflexivity).
  split; [exact E | exact (@SolveTSP_route_is_greedy SmallAngle _ _ _ E)].
Defined.

End TourFacts.

(** ** The handler of the single-file service *)

Module ServiceFacts.
Import Geo Api Service.
Local Open Scope string_scope.
Unset Implicit Arguments.

(** [http.Error] followed by [return] on a fresh writer. *)
Lemma reject_exact {A} msg code :
  (http_Error msg code ;; return_ (A := A)) fresh =
  (Returned None, {| rw := error_reply msg code; calls := [] |}).
Proof. reflexivity. Qed.

(** The tail common to the handlers: call the solver, set the content
    type, encode. *)
Lemma respond_exact {Req Resp} (tag : Req -> Call) (f : Req -> outcome Resp)
    (enc : Resp -> option string) req :
  (resp <- call tag f req ;;
   Header_Set "Content-Type" "application/json" ;;
   json_Encode enc resp) fresh =
  match f req with
  | Returned resp =>
      (Returned (Some tt), {| rw := json_reply (enc resp); calls := [tag req] |})
  | Panic => (Panic, {| rw := rw fresh; calls := [tag req] |})
  | OutOfFuel => (OutOfFuel, {| rw := rw fresh; calls := [tag req] |})
  end.
Proof.
  unfold bind, call. simpl. destruct (f req) as [resp| |]; simpl; auto.
  unfold json_Encode, json_reply. destruct (enc resp); reflexivity.
Qed.

Section Handler.
Context {M : GoMath} {C : Codec}.

(** On ordinary distances the sequencer returns a permutation. *)
Lemma solve_ordinary start stops :
  distances_ordinary start stops = true ->
  exists route, SolveTSPNearestNeighbor start stops = Returned route /\
                Permutation stops route.
Proof.
  intros Hord. unfold distances_ordinary in Hord. rewrite forallb_forall in Hord.
  rewrite GeoFacts.SolveTSP_is_loop.
  destruct (@GeoFacts.loop_permutation M (length stops)
              {| remaining := stops; route := []; current := start |})
    as (r & Hr & Hp); simpl; auto.
  - intros c s Hc Hs. specialize (Hord c Hc). rewrite forallb_forall in Hord. auto.
  - exists r. auto.
Qed.

Lemma optimizeHandler_wrong_method r :
  Method r <> MethodPost ->
  optimizeHandler r fresh =
  (Returned None,
   {| rw := error_reply "Method not allowed" StatusMethodNotAllowed; calls := [] |}).
Proof.
  intros Hm. unfold optimizeHandler.
  apply String.eqb_neq in Hm. rewrite Hm. simpl negb. unfold when.
  now rewrite (ApiFacts.bind_returns _ (reject_exact (A := unit) _ _)).
Qed.

Lemma optimizeHandler_malformed r :
  Method r = MethodPost -> decode (Body r) = None ->
  optimizeHandler r fresh =
  (Returned None,
   {| rw := error_reply "Invalid request body" StatusBadRequest; calls := [] |}).
Proof.
  intros Hm Hd. unfold optimizeHandler.
  rewrite (ApiFacts.method_check_passes _ Hm), Hd.
  now rewrite (ApiFacts.bind_returns _ (reject_exact (A := OptimizationRequest) _ _)).
Qed.

Lemma optimizeHandler_solves r req :
  Method r = MethodPost -> decode (Body r) = Some req ->
  optimizeHandler r fresh =
  match SolveTSPNearestNeighbor (Start req) (Stops req) with
  | Returned route =>
      (Returned (Some tt),
       {| rw := json_reply (encode route); calls := [CallSolveTSP req] |})
  | Panic => (Panic, {| rw := rw fresh; calls := [CallSolveTSP req] |})
  | OutOfFuel => (OutOfFuel, {| rw := rw fresh; calls := [CallSolveTSP req] |})
  end.
Proof.
  intros Hm Hd. unfold optimizeHandler.
  rewrite (ApiFacts.method_check_passes _ Hm), Hd, ApiFacts.bind_pure.
  apply (respond_exact CallSolveTSP
           (fun req => SolveTSPNearestNeighbor (Start req) (Stops req))).
Qed.

End Handler.

(** X4: a POST whose body decodes to a request with ordinary distances
    is answered 200 with the JSON content type, and the body is the
    encoding, followed by a newline, of a permutation of the stops of
    the request. *)
Theorem optimizeHandler_replies_with_permutation (M : GoMath) (C : Codec) r req :
  Method r = MethodPost ->
  decode (Body r) = Some req ->
  distances_ordinary (Start req) (Stops req) = true ->
  exists route,
    Permutation (Stops req) route /\
    optimizeHandler r fresh =
    (Returned (Some tt),
     {| rw := json_reply (encode route); calls := [CallSolveTSP req] |}).
Proof.
  intros Hm Hd Hord.
  destruct (solve_ordinary (Start req) (Stops req) Hord) as (route & Hr & Hperm).
  exists route. split; [exact Hperm|].
  rewrite (optimizeHandler_solves r req Hm Hd), Hr. reflexivity.
Qed.

Lemma optimizeHandler_replies_with_permutation_witness :
  exists route,
    Permutation (Stops sample_route) route /\
    optimizeHandler (M := SmallAngle) (C := SampleCodec) (post "route") fresh =
    (Returned (Some tt),
     {| rw := json_reply (encode (Codec := SampleCodec) route);
        calls := [CallSolveTSP sample_route] |}).
Proof.
  apply (optimizeHandler_replies_with_permutation SmallAngle SampleCodec
           (post "route") sample_route); [reflexivity | reflexivity |].
  vm_compute. reflexivity.
Defined.

(** X5: the handler leaves the client without a reply exactly when the
    request is a POST whose body decodes and on which the sequencer
    panics; nothing was written to the response by then. *)
Theorem optimizeHandler_silent_iff_solver_panics (M : GoMath) (C : Codec) r :
  (reply (optimizeHandler r fresh) = None <->
   Method r = MethodPost /\
   exists req, decode (Body r) = Some req /\
               SolveTSPNearestNeighbor (Start req) (Stops req) = Panic) /\
  (reply (optimizeHandler r fresh) = None ->
   rw (snd (optimizeHandler r fresh)) = rw fresh).
Proof.
  destruct (string_dec (Method r) MethodPost) as [Hm | Hm].
  - destruct (decode (Body r)) as [req|] eqn:Hd.
    + rewrite (optimizeHandler_solves r req Hm Hd).
      pose proof (GeoFacts.SolveTSP_terminates (Start req) (Stops req)) as Hfuel.
      destruct (SolveTSPNearestNeighbor (Start req) (Stops req)) as [route| |] eqn:E;
        [| |congruence].
      * split; [|discriminate]. split; [discriminate|].
        intros (_ & req' & Hd' & Hp). congruence.
      * split; [|reflexivity]. split; [|reflexivity].
        intros _. split; [exact Hm|]. now exists req.
    + rewrite (optimizeHandler_malformed r Hm Hd).
      split; [|discriminate]. split; [discriminate|].
      intros (_ & req' & Hd' & _). discriminate.
  - rewrite (optimizeHandler_wrong_method r Hm).
    split; [|discriminate]. split; [discriminate|].
    intros (Hm' & _). contradiction.
Qed.

(** X6: a method other than POST is answered 405 and a body that does
    not decode 400, each with the plain-text headers of [http.Error]
    and its message on one line; the sequencer is not called. *)
Theorem optimizeHandler_rejections (M : GoMath) (C : Codec) r :
  (Method r <> MethodPost ->
   optimizeHandler r fresh =
   (Returned None,
    {| rw := error_reply "Method not allowed" StatusMethodNotAllowed;
       calls := [] |})) /\
  (Method r = MethodPost -> decode (Body r) = None ->
   optimizeHandler r fresh =
   (Returned None,
    {| rw := error_reply "Invalid request body" StatusBadRequest;
       calls := [] |})).
Proof.
  split; [apply optimizeHandler_wrong_method | apply optimizeHandler_malformed].
Qed.

Lemma optimizeHandler_rejections_witness :
  Method delete_request <> MethodPost /\
  Method (post "") = MethodPost /\
  decode (Codec := SampleCodec) (Body (post "")) = None /\
  reply (optimizeHandler (M := SmallAngle) (C := SampleCodec) delete_request fresh) =
    Some StatusMethodNotAllowed /\
  reply (optimizeHandler (M := SmallAngle) (C := SampleCodec) (post "") fresh) =
    Some StatusBadRequest.
Proof.
  assert (Hm : Method delete_request <> MethodPost) by discriminate.
  destruct (optimizeHandler_rejections SmallAngle SampleCodec delete_request) as [H1 _].
  destruct (optimizeHandler_rejections SmallAngle SampleCodec (post "")) as [_ H2].
  split; [exact Hm | split; [reflexivity | split; [reflexivity | split]]].
  - rewrite (H1 Hm). reflexivity.
  - rewrite (H2 eq_refl eq_refl). reflexivity.
Defined.

End ServiceFacts.

(** ** The replies of the service handlers, in full *)

Module ReplyFacts.
Import Geo Alloc Api Service Samples.
Local Open Scope string_scope.
Unset Implicit Arguments.

Section Handlers.
Context {D : Deps}.

(** The validation loop on a fresh writer: one error line, written at
    the first weight that is not positive. *)
Lemma check_weights_rejects_once shipments :
  Exists (fun s => (WeightKg s <= 0)%Q) shipments ->
  check_weights shipments fresh =
  (Returned None,
   {| rw := error_reply "Shipment weight must be positive" StatusBadRequest;
      calls := [] |}).
Proof.
  induction shipments as [|s rest IH]; intros Hex; [inversion Hex|].
  simpl. destruct (Qle_bool (WeightKg s) 0) eqn:E; unfold when.
  - now rewrite (ApiFacts.bind_returns _ (ServiceFacts.reject_exact (A := unit) _ _)).
  - rewrite ApiFacts.bind_pure. apply IH.
    inversion Hex; subst; [|assumption].
    apply Qle_bool_iff in H0. congruence.
Qed.

End Handlers.

(** X7: when some shipment weight is not positive, the load handler
    answers 400 with the single line "Shipment weight must be positive",
    however many weights are not positive, and does not call the
    allocator. *)
Theorem load_handler_rejects_once (D : Deps) r req :
  Method r = MethodPost ->
  decodeLoad (Body r) = Some req ->
  Exists (fun s => (WeightKg s <= 0)%Q) (Shipments req) ->
  OptimizeLoadHandler r fresh =
  (Returned None,
   {| rw := error_reply "Shipment weight must be positive" StatusBadRequest;
      calls := [] |}).
Proof.
  intros Hm Hd Hex. unfold OptimizeLoadHandler.
  rewrite (ApiFacts.method_check_passes _ Hm), Hd, ApiFacts.bind_pure.
  now rewrite (ApiFacts.bind_returns _ (check_weights_rejects_once _ Hex)).
Qed.

Lemma load_handler_rejects_once_witness :
  OptimizeLoadHandler (D := MoreDeps) (post "all-bad") fresh =
  (Returned None,
   {| rw := error_reply "Shipment weight must be positive" StatusBadRequest;
      calls := [] |}).
Proof.
  apply (load_handler_rejects_once MoreDeps (post "all-bad") all_bad);
    [reflexivity | reflexivity |].
  apply Exists_cons_hd. simpl. lra.
Defined.

(** X8: past their checks, both handlers answer with what the solver
    returned: status 200, the JSON content type and the encoding of the
    response followed by a newline, after exactly one call of the
    solver; when the solver panics, the response is still untouched. *)
Theorem handlers_reply_with_solver_response (D : Deps) r :
  Method r = MethodPost ->
  (forall req, decodeRoute (Body r) = Some req ->
     OptimizeRouteHandler r fresh =
     match solver_SolveTSPNearestNeighbor req with
     | Returned resp =>
         (Returned (Some tt),
          {| rw := json_reply (encodeRoute resp); calls := [CallSolveTSP req] |})
     | Panic => (Panic, {| rw := rw fresh; calls := [CallSolveTSP req] |})
     | OutOfFuel => (OutOfFuel, {| rw := rw fresh; calls := [CallSolveTSP req] |})
     end) /\
  (forall req, decodeLoad (Body r) = Some req ->
     Forall (fun s => (0 < WeightKg s)%Q) (Shipments req) ->
     OptimizeLoadHandler r fresh =
     match solver_OptimizeFleetAllocation req with
     | Returned resp =>
         (Returned (Some tt),
          {| rw := json_reply (encodeLoad resp); calls := [CallOptimizeFleet req] |})
     | Panic => (Panic, {| rw := rw fresh; calls := [CallOptimizeFleet req] |})
     | OutOfFuel => (OutOfFuel, {| rw := rw fresh; calls := [CallOptimizeFleet req] |})
     end).
Proof.
  intros Hm. split.
  - intros req Hd. unfold OptimizeRouteHandler.
    rewrite (ApiFacts.method_check_passes _ Hm), Hd, ApiFacts.bind_pure.
    apply (ServiceFacts.respond_exact CallSolveTSP solver_SolveTSPNearestNeighbor).
  - intros req Hd Hall. unfold OptimizeLoadHandler.
    rewrite (ApiFacts.method_check_passes _ Hm), Hd, ApiFacts.bind_pure.
    rewrite (ApiFacts.bind_goes_on _ (ApiFacts.check_weights_pass fresh Hall)).
    apply (ServiceFacts.respond_exact CallOptimizeFleet solver_OptimizeFleetAllocation).
Qed.

Lemma handlers_reply_with_solver_response_witness :
  Method (post "load") = MethodPost /\
  written (rw (snd (OptimizeLoadHandler (D := SampleDeps) (post "load") fresh))) =
    "{allocation}" ++ newline.
Proof.
  split; [reflexivity|].
  destruct (handlers_reply_with_solver_response SampleDeps (post "load") eq_refl)
    as [_ H].
  rewrite (H two_trucks eq_refl); [reflexivity|].
  repeat constructor.
Defined.

(** X9: both handlers check the method before they look at the body: a
    method other than POST is answered 405 with the line "Method not
    allowed" whatever the body, and a POST whose body does not decode
    is answered 400 with the line "Invalid request body"; in neither
    case is a solver called. *)
Theorem handlers_rejections (D : Deps) r :
  (Method r <> MethodPost ->
   OptimizeRouteHandler r fresh =
     (Returned None,
      {| rw := error_reply "Method not allowed" StatusMethodNotAllowed;
         calls := [] |}) /\
   OptimizeLoadHandler r fresh =
     (Returned None,
      {| rw := error_reply "Method not allowed" StatusMethodNotAllowed;
         calls := [] |})) /\
  (Method r = MethodPost ->
   (decodeRoute (Body r) = None ->
    OptimizeRouteHandler r fresh =
      (Returned None,
       {| rw := error_reply "Invalid request body" StatusBadRequest;
          calls := [] |})) /\
   (decodeLoad (Body r) = None ->
    OptimizeLoadHandler r fresh =
      (Returned None,
       {| rw := error_reply "Invalid request body" StatusBadRequest;
          calls := [] |}))).
Proof.
  split.
  - intros Hm. apply String.eqb_neq in Hm.
    unfold OptimizeRouteHandler, OptimizeLoadHandler.
    rewrite Hm. simpl negb. unfold when.
    split; now rewrite (ApiFacts.bind_returns _ (ServiceFacts.reject_exact (A := unit) _ _)).
  - intros Hm. split; intros Hd.
    + unfold OptimizeRouteHandler.
      rewrite (ApiFacts.method_check_passes _ Hm), Hd.
      now rewrite (ApiFacts.bind_returns _
                     (ServiceFacts.reject_exact (A := OptimizationRequest) _ _)).
    + unfold OptimizeLoadHandler.
      rewrite (ApiFacts.method_check_passes _ Hm), Hd.
      now rewrite (ApiFacts.bind_returns _
                     (ServiceFacts.reject_exact (A := LoadRequest) _ _)).
Qed.

Lemma handlers_rejections_witness :
  Method delete_request <> MethodPost /\
  Method (post "") = MethodPost /\
  written (rw (snd (OptimizeLoadHandler (D := SampleDeps) delete_request fresh))) =
    "Method not allowed" ++ newline /\
  written (rw (snd (OptimizeRouteHandler (D := SampleDeps) (post "") fresh))) =
    "Invalid request body" ++ newline.
Proof.
  assert (Hm : Method delete_request <> MethodPost) by discriminate.
  destruct (handlers_rejections SampleDeps delete_request) as [H1 _].
  destruct (handlers_rejections SampleDeps (post "")) as [_ H2].
  split; [exact Hm | split; [reflexivity | split]].
  - rewrite (proj2 (H1 Hm)). reflexivity.
  - rewrite (proj1 (H2 eq_refl) eq_refl). reflexivity.
Defined.

End ReplyFacts.

(** ** Route suggestions and the waypoints of a trip *)

Module TripsFacts.
Import Routing Trips.
Local Open Scope string_scope.

Section Service.
Context {U : TspUtils}.

Lemma findMany_In db ids row :
  In row (findMany db ids) <->
  In row (shipment_table db) /\ In (row_id row) ids.
Proof.
  unfold findMany. rewrite filter_In, existsb_exists.
  split; intros [Hrow Hid]; (split; [exact Hrow|]).
  - destruct Hid as (x & Hx & E). apply String.eqb_eq in E. now subst x.
  - exists (row_id row). split; [exact Hid | apply String.eqb_refl].
Qed.

(** The rows found depend on the identifiers asked for as a set. *)
Lemma findMany_same_set db ids ids' :
  (forall x, In x ids <-> In x ids') -> findMany db ids = findMany db ids'.
Proof.
  intros Hset. unfold findMany. apply filter_ext. intros row.
  destruct (existsb (String.eqb (row_id row)) ids) eqn:E;
    destruct (existsb (String.eqb (row_id row)) ids') eqn:E'; auto.
  - apply existsb_exists in E. destruct E as (x & Hx & Ex).
    assert (Hf : existsb (String.eqb (row_id row)) ids' = true)
      by (apply existsb_exists; exists x; split; [now apply Hset | exact Ex]).
    congruence.
  - apply existsb_exists in E'. destruct E' as (x & Hx & Ex).
    assert (Hf : existsb (String.eqb (row_id row)) ids = true)
      by (apply existsb_exists; exists x; split; [now apply Hset | exact Ex]).
    congruence.
Qed.

Lemma build_waypoints_length rows :
  length (build_waypoints rows) = 2 * length rows.
Proof.
  unfold build_waypoints. induction rows as [|row rows IH]; simpl; [reflexivity|].
  rewrite IH. lia.
Qed.

End Service.


(** X11: the outcome of [optimizeTripSheetRoute] depends on the
    shipment identifiers only as a set: their order and repetitions
    change nothing. *)
Theorem optimizeTripSheetRoute_ids_as_set (U : TspUtils) db vehicle ids ids' :
  (forall x, In x ids <-> In x ids') ->
  optimizeTripSheetRoute db vehicle ids = optimizeTripSheetRoute db vehicle ids'.
Proof.
  intros Hset. unfold optimizeTripSheetRoute, optimized.
  now rewrite (findMany_same_set db ids ids' Hset).
Qed.

Lemma optimizeTripSheetRoute_ids_as_set_witness :
  optimizeTripSheetRoute (U := InOrder) sample_db "v1" ["s1"; "s1"; "s0"; "s1"] =
  optimizeTripSheetRoute (U := InOrder) sample_db "v1" ["s0"; "s1"].
Proof.
  apply (@optimizeTripSheetRoute_ids_as_set InOrder sample_db "v1").
  intros x. simpl. tauto.
Defined.

(** X12: the waypoints handed to the sequencer are a pickup and a drop
    for every stored shipment that was asked for, and nothing else:
    identifiers that are not stored are ignored without error, and
    there are twice as many waypoints as shipments found. *)
Theorem waypoints_of_stored_shipments (U : TspUtils) db ids :
  (forall w, In w (build_waypoints (findMany db ids)) <->
     exists row, In row (shipment_table db) /\ In (row_id row) ids /\
                 In w (waypoints_of row)) /\
  length (build_waypoints (findMany db ids)) = 2 * length (findMany db ids).
Proof.
  split; [|apply build_waypoints_length].
  intros w. unfold build_waypoints. rewrite in_flat_map.
  split; intros (row & Hrow & Hw).
  - apply findMany_In in Hrow. exists row. tauto.
  - exists row. split; [apply findMany_In|]; tauto.
Qed.

End TripsFacts.

(** ** The shipment actions *)

Module ActionsFacts.
Import Actions ActionSamples.
Local Open Scope string_scope.
Unset Implicit Arguments.

Lemma set_driver_status_ids id st rows :
  map dr_id (set_driver_status id st rows) = map dr_id rows.
Proof.
  unfold set_driver_status. rewrite map_map. apply map_ext.
  intros d. now destruct (dr_id d =? id).
Qed.


Lemma update_vehicle_ids id f rows :
  (forall v, ve_id (f v) = ve_id v) ->
  map ve_id (update_vehicle id f rows) = map ve_id rows.
Proof.
  intros Hf. unfold update_vehicle. rewrite map_map. apply map_ext.
  intros v. destruct (ve_id v =? id); auto.
Qed.


Lemma cleared_id v : ve_id (cleared v) = ve_id v.
Proof. reflexivity. Qed.

Lemma idled_id v : ve_id (idled v) = ve_id v.
Proof. reflexivity. Qed.

Section WithBackend.
Context {B : Backend}.

(** The three ways [createShipment] ends: an error and nothing done;
    a throw after the insert and the driver update; success. *)
Lemma createShipment_cases form db :
  (exists e, createShipment form db = (Failure e, db, [])) \/
  (exists a b c d,
     truthy_string (get form "driver_id") = true /\
     truthy_string (get form "vehicle_id") = true /\
     number_or_null form "start_location_lat" = Some a /\
     number_or_null form "start_location_lng" = Some b /\
     ((exists route,
         fetchRoute b a d c = Some route /\
         isoAfter (duration route * 1000) = None /\
         createShipment form db =
         (Threw "Invalid time value",
          {| shipments := (shipments db ++ [new_row form a b c d])%list;
             drivers := set_driver_status (text (get form "driver_id")) "working"
                          (drivers db);
             vehicles := vehicles db |},
          [])) \/
      (exists eta,
         createShipment form db =
         (Success (Some generateShipmentNumber),
          {| shipments := (shipments db ++ [new_row form a b c d])%list;
             drivers := set_driver_status (text (get form "driver_id")) "working"
                          (drivers db);
             vehicles :=
               update_vehicle (text (get form "vehicle_id"))
                 (fun v =>
                    {| ve_id := ve_id v;
                       ve_status := "in_use";
                       ve_latitude := Some a;
                       ve_longitude := Some b;
                       current_route := fetchRoute b a d c;
                       route_index := 0;
                       ve_eta := eta |})
                 (vehicles db) |},
          all_paths)))).
Proof.
  unfold createShipment.
  destruct (truthy_string (get form "start_location")); simpl;
    [|left; eexists; reflexivity].
  destruct (truthy_string (get form "destination")); simpl;
    [|left; eexists; reflexivity].
  destruct (truthy_string (get form "driver_id")); simpl;
    [|left; eexists; reflexivity].
  destruct (truthy_string (get form "vehicle_id")); simpl;
    [|left; eexists; reflexivity].
  destruct (number_or_null form "start_location_lat") as [a|];
    [|left; eexists; reflexivity].
  destruct (number_or_null form "start_location_lng") as [b|];
    [|left; eexists; reflexivity].
  destruct (number_or_null form "destination_lat") as [c|];
    [|left; eexists; reflexivity].
  destruct (number_or_null form "destination_lng") as [d|];
    [|left; eexists; reflexivity].
  destruct (insertError db _) as [message|]; [left; eexists; reflexivity|].
  right. exists a, b, c, d. repeat (split; [reflexivity|]).
  destruct (fetchRoute b a d c) as [route|] eqn:Hroute; simpl.
  - destruct (isoAfter (duration route * 1000)) as [eta|] eqn:Heta; simpl.
    + right. eexists. reflexivity.
    + left. exists route. auto.
  - right. eexists. reflexivity.
Qed.

End WithBackend.

(** X13: an action that answers with an error has changed nothing in
    the database and has revalidated no path. *)
Theorem failed_action_leaves_no_trace (B : Backend) :
  (forall form db e db' paths,
     createShipment form db = (Failure e, db', paths) -> db' = db /\ paths = []) /\
  (forall id status db e db' paths,
     updateShipmentStatus id status db = (Failure e, db', paths) ->
     db' = db /\ paths = []) /\
  (forall id db e db' paths,
     deleteShipment id db = (Failure e, db', paths) -> db' = db /\ paths = []).
Proof.
  split; [|split].
  - intros form db e db' paths H.
    destruct (createShipment_cases form db)
      as [[e0 E] | (a & b & c & d & _ & _ & _ & _ &
                    [(route & _ & _ & E) | (eta & E)])];
      rewrite E in H; inversion H; auto.
  - intros id status db e db' paths H. unfold updateShipmentStatus in H.
    destruct (single id (shipments db)); [|inversion H; auto].
    destruct (updateError db id); inversion H; auto.
  - intros id db e db' paths H. unfold deleteShipment in H.
    destruct (deleteError db id); inversion H; auto.
Qed.

Lemma failed_action_leaves_no_trace_witness :
  createShipment (B := SampleBackend) equator_form fleet =
    (Failure "Please select valid locations from the dropdown", fleet, []) /\
  fleet = fleet /\ @nil string = [].
Proof.
  assert (E : createShipment (B := SampleBackend) equator_form fleet =
              (Failure "Please select valid locations from the dropdown", fleet, []))
    by (vm_compute; reflexivity).
  split; [exact E|].
  exact (proj1 (failed_action_leaves_no_trace SampleBackend) _ _ _ _ _ E).
Defined.

(** X14: no action adds or removes a driver or a vehicle: the
    identifiers in both tables, and their order, stay as they are. *)
Theorem actions_keep_drivers_and_vehicles (B : Backend) :
  (forall form db,
     let db' := snd (fst (createShipment form db)) in
     map dr_id (drivers db') = map dr_id (drivers db) /\
     map ve_id (vehicles db') = map ve_id (vehicles db)) /\
  (forall id status db,
     let db' := snd (fst (updateShipmentStatus id status db)) in
     map dr_id (drivers db') = map dr_id (drivers db) /\
     map ve_id (vehicles db') = map ve_id (vehicles db)) /\
  (forall id db,
     let db' := snd (fst (deleteShipment id db)) in
     map dr_id (drivers db') = map dr_id (drivers db) /\
     map ve_id (vehicles db') = map ve_id (vehicles db)).
Proof.
  split; [|split].
  - intros form db.
    destruct (createShipment_cases form db)
      as [[e0 E] | (a & b & c & d & _ & _ & _ & _ &
                    [(route & _ & _ & E) | (eta & E)])];
      rewrite E; simpl; [auto | |].
    + split; [apply set_driver_status_ids | reflexivity].
    + split; [apply set_driver_status_ids | now apply update_vehicle_ids].
  - intros id status db. unfold updateShipmentStatus.
    destruct (single id (shipments db)) as [shipment|]; simpl; [|auto].
    destruct (updateError db id); simpl; [auto|].
    split.
    + destruct (_ && truthy_string (driver_id shipment)); auto.
      apply set_driver_status_ids.
    + destruct (_ && truthy_string (vehicle_id shipment)); auto.
      apply update_vehicle_ids, cleared_id.
  - intros id db. unfold deleteShipment.
    destruct (deleteError db id); simpl; [auto|].
    split.
    + destruct (_ && truthy_string _); auto. apply set_driver_status_ids.
    + destruct (_ && truthy_string _); auto. apply update_vehicle_ids, idled_id.
Qed.

Section WithBackend.
Context {B : Backend}.

Lemma number_or_null_none form name :
  number_or_null form name = None <->
  get form name = None \/
  exists t, get form name = Some t /\
            (is_nan (parseFloat t) = true \/ (parseFloat t =? 0)%float = true).
Proof.
  unfold number_or_null, truthy_number.
  destruct (get form name) as [t|].
  - destruct (parseFloat t =? 0)%float eqn:Ez; destruct (is_nan (parseFloat t)) eqn:En;
      simpl; split; intros H; try discriminate;
      try (right; exists t; split; [reflexivity | auto]); auto.
    destruct H as [H | (t' & Ht & [H | H])]; [discriminate | |];
      inversion Ht; subst t'; congruence.
  - simpl. split; auto.
Qed.

Lemma single_none id rows :
  (forall s, In s rows -> sh_id s <> id) -> single id rows = None.
Proof.
  intros H. unfold single.
  replace (filter (fun s => sh_id s =? id) rows) with (@nil ShipmentRow); [reflexivity|].
  symmetry. induction rows as [|s rows IH]; simpl; [reflexivity|].
  destruct (sh_id s =? id) eqn:E.
  - apply String.eqb_eq in E. exfalso. exact (H s (or_introl eq_refl) E).
  - apply IH. intros s' Hs'. apply H. now right.
Qed.

Lemma filter_others id rows :
  (forall s, In s rows -> sh_id s <> id) ->
  filter (fun s => negb (sh_id s =? id)) rows = rows.
Proof.
  intros H. induction rows as [|s rows IH]; simpl; [reflexivity|].
  destruct (sh_id s =? id) eqn:E; simpl.
  - apply String.eqb_eq in E. exfalso. exact (H s (or_introl eq_refl) E).
  - f_equal. apply IH. intros s' Hs'. apply H. now right.
Qed.


End WithBackend.



(** X16: [createShipment] refuses a form in which one of the four
    coordinates is missing, is not a number, or is 0: it answers with
    an error and leaves the database as it is. *)
Theorem createShipment_refuses_zero_coordinate (B : Backend) form db name :
  In name ["start_location_lat"; "start_location_lng";
           "destination_lat"; "destination_lng"] ->
  (get form name = None \/
   exists t, get form name = Some t /\
             (is_nan (parseFloat t) = true \/ (parseFloat t =? 0)%float = true)) ->
  createShipment form db = (Failure "All fields are required", db, []) \/
  createShipment form db =
    (Failure "Please select valid locations from the dropdown", db, []).
Proof.
  intros Hname Hbad. apply number_or_null_none in Hbad.
  unfold createShipment.
  destruct (negb (truthy_string (get form "start_location"))
            || negb (truthy_string (get form "destination"))
            || negb (truthy_string (get form "driver_id"))
            || negb (truthy_string (get form "vehicle_id"))); [now left|].
  right.
  destruct Hname as [<- | [<- | [<- | [<- | []]]]]; rewrite Hbad;
    repeat match goal with
    | |- context [match number_or_null ?f ?n with _ => _ end] =>
        destruct (number_or_null f n)
    end; reflexivity.
Qed.

Lemma createShipment_refuses_zero_coordinate_witness :
  (exists t, get equator_form "start_location_lat" = Some t /\
             (is_nan (parseFloat (Backend := SampleBackend) t) = true \/
              (parseFloat (Backend := SampleBackend) t =? 0)%float = true)) /\
  (createShipment (B := SampleBackend) equator_form fleet =
     (Failure "All fields are required", fleet, []) \/
   createShipment (B := SampleBackend) equator_form fleet =
     (Failure "Please select valid locations from the dropdown", fleet, [])).
Proof.
  assert (H : exists t, get equator_form "start_location_lat" = Some t /\
             (is_nan (parseFloat (Backend := SampleBackend) t) = true \/
              (parseFloat (Backend := SampleBackend) t =? 0)%float = true)).
  { exists "0". split; [reflexivity | right; reflexivity]. }
  split; [exact H|].
  apply (createShipment_refuses_zero_coordinate SampleBackend equator_form fleet
           "start_location_lat"); [left; reflexivity | right; exact H].
Defined.



(** X18: when [deleteShipment] succeeds, the shipments left are those
    of another identifier, and no vehicle has lost or changed its
    route, its eta, its route index or its position: a vehicle freed by
    the deletion keeps them. *)
Theorem deleteShipment_keeps_routes (B : Backend) id db n db' paths :
  deleteShipment id db = (Success n, db', paths) ->
  (forall s, In s (shipments db') <-> In s (shipments db) /\ sh_id s <> id) /\
  map current_route (vehicles db') = map current_route (vehicles db) /\
  map ve_eta (vehicles db') = map ve_eta (vehicles db) /\
  map route_index (vehicles db') = map route_index (vehicles db) /\
  map ve_latitude (vehicles db') = map ve_latitude (vehicles db) /\
  map ve_longitude (vehicles db') = map ve_longitude (vehicles db).
Proof.
  unfold deleteShipment. intros H.
  destruct (deleteError db id); [discriminate|].
  inversion H; subst; clear H. simpl. split.
  - intros s. rewrite filter_In. split; intros [Hin Hid]; (split; [exact Hin|]).
    + intros E. rewrite E, String.eqb_refl in Hid. discriminate.
    + apply String.eqb_neq in Hid. now rewrite Hid.
  - destruct (_ && truthy_string _); [|auto 6].
    unfold update_vehicle. rewrite !map_map.
    repeat split; apply map_ext; intros v; now destruct (ve_id v =? _).
Qed.

Lemma deleteShipment_keeps_routes_witness :
  exists db',
    deleteShipment (B := SampleBackend) "s9" fleet_at_work =
      (Success None, db', all_paths) /\
    map current_route (vehicles db') = map current_route (vehicles fleet_at_work).
Proof.
  eexists. split; [vm_compute; reflexivity|].
  exact (proj1 (proj2 (deleteShipment_keeps_routes SampleBackend "s9"
                         fleet_at_work _ _ _ eq_refl))).
Defined.

(** X19: deleting an identifier that no shipment has succeeds, when
    the database reports no error, and changes nothing. *)
Theorem deleteShipment_unknown_succeeds (B : Backend) id db :
  (forall s, In s (shipments db) -> sh_id s <> id) ->
  deleteError db id = None ->
  deleteShipment id db = (Success None, db, all_paths).
Proof.
  intros Hnone Herr. unfold deleteShipment.
  rewrite Herr, (single_none id (shipments db) Hnone), (filter_others id _ Hnone).
  simpl. destruct db; reflexivity.
Qed.

Lemma deleteShipment_unknown_succeeds_witness :
  deleteShipment (B := SampleBackend) "s404" fleet_at_work =
    (Success None, fleet_at_work, all_paths).
Proof.
  apply (deleteShipment_unknown_succeeds SampleBackend "s404" fleet_at_work);
    [|reflexivity].
  intros s [<- | []]. discriminate.
Defined.



End ActionsFacts.

(** ** Things that go wrong half-way *)

Module MishapsFacts.
Import Geo Api Service Routing Trips Actions ActionSamples Mishaps.
Local Open Scope string_scope.
Unset Implicit Arguments.

Lemma optimizeHandler_silent_witness :
  reply (optimizeHandler (M := SmallAngle) (C := FarCodec) (post "x") fresh) = None /\
  rw (snd (optimizeHandler (M := SmallAngle) (C := FarCodec) (post "x") fresh)) =
    rw fresh.
Proof.
  assert (H : reply (optimizeHandler (M := SmallAngle) (C := FarCodec) (post "x") fresh)
              = None) by (vm_compute; reflexivity).
  split; [exact H|].
  exact (proj2 (ServiceFacts.optimizeHandler_silent_iff_solver_panics
                  SmallAngle FarCodec (post "x")) H).
Defined.




End MishapsFacts.
